(** * pyacq core: Host orchestration, background pollers and the channel splitter

    A shallow embedding of [pyacq/core/host.py] and [pyacq/core/tools.py].

    - Python exceptions are values of [exn]; code that can raise runs in the
      state-and-exception monad [Eff.M], which keeps the state reached at the
      moment of the raise (Python does not roll anything back).
    - [self.nodegroup_process] is a Python [dict]: an insertion-ordered
      association list, see [PyDict].
    - Collaborators whose code is not part of the modelled files
      ([ProcessSpawner], [RPCClient], [RPCServer], [InputStream],
      [OutputStream]) are reached through explicit oracles and leave
      events in a log. *)

From Stdlib Require Import List String ZArith Bool Lia DecimalString.
Import ListNotations.
Local Open Scope string_scope.
Local Open Scope list_scope.

(** ** Python exceptions *)

Inductive exn : Type :=
| AssertionError (msg : string)
| KeyError (key : string)
| ValueError (msg : string)
| TypeError (msg : string)
| IndexError (msg : string)
| AttributeError (msg : string)
| RemoteError (kind : string).

(** ** State and exception monad *)

Module Eff.

Definition M (S A : Type) : Type := S -> (exn + A) * S.

Definition ret {S A} (a : A) : M S A := fun s => (inr a, s).

Definition bind {S A B} (m : M S A) (k : A -> M S B) : M S B :=
  fun s => match m s with
           | (inl e, s') => (inl e, s')
           | (inr a, s') => k a s'
           end.

Definition raise {S A} (e : exn) : M S A := fun s => (inl e, s).

Definition gets {S A} (f : S -> A) : M S A := fun s => (inr (f s), s).

Definition modify {S} (f : S -> S) : M S unit := fun s => (inr tt, f s).

(** [assert cond, msg] *)
Definition assert_ {S} (cond : bool) (msg : string) : M S unit :=
  if cond then ret tt else raise (AssertionError msg).

(** [for x in xs: body x] *)
Fixpoint for_each {S A} (xs : list A) (body : A -> M S unit) : M S unit :=
  match xs with
  | [] => ret tt
  | x :: xs' => bind (body x) (fun _ => for_each xs' body)
  end.

End Eff.

Declare Scope eff_scope.
Delimit Scope eff_scope with eff.
Notation "x <- m ;; k" := (Eff.bind m (fun x => k))
  (at level 61, m at next level, right associativity) : eff_scope.
Notation "m ;;; k" := (Eff.bind m (fun _ => k))
  (at level 61, right associativity) : eff_scope.

(** ** Python dictionaries with string keys *)

Module PyDict.
Section Dict.
Context {V : Type}.

Definition dict : Type := list (string * V).

Definition keys (d : dict) : list string := map fst d.

(** [d[k]]; [None] stands for [KeyError]. *)
Fixpoint getitem (k : string) (d : dict) : option V :=
  match d with
  | [] => None
  | (k', v) :: d' => if String.eqb k k' then Some v else getitem k d'
  end.

(** [k in d] *)
Definition contains (k : string) (d : dict) : bool :=
  match getitem k d with Some _ => true | None => false end.

(** [d[k] = v]: an existing key keeps its place, a new one goes last. *)
Fixpoint setitem (k : string) (v : V) (d : dict) : dict :=
  match d with
  | [] => [(k, v)]
  | (k', v') :: d' =>
      if String.eqb k k' then (k', v) :: d' else (k', v') :: setitem k v d'
  end.

(** [del d[k]]; [None] stands for [KeyError]. *)
Fixpoint delitem (k : string) (d : dict) : option dict :=
  match d with
  | [] => None
  | (k', v') :: d' =>
      if String.eqb k k' then Some d'
      else match delitem k d' with
           | Some d'' => Some ((k', v') :: d'')
           | None => None
           end
  end.

(** Keys of a Python dict are pairwise distinct. *)
Definition wf (d : dict) : Prop := NoDup (keys d).

End Dict.
Arguments dict V : clear implicits.
End PyDict.

(** ** [pyacq/core/host.py]: the Host *)

Module Host.
Import Eff.
Local Open Scope eff_scope.

(** Proxy to the RPC server living in a spawned process. *)
Record RPCClient : Type := { client_name : string; client_addr : string }.

(** Handle on a spawned process: the attributes [create_nodegroup] and
    [close_nodegroup] read ([ps.name], [ps.addr], [ps.client]). *)
Record ProcessSpawner : Type :=
  { name : string; addr : string; client : RPCClient }.

(** Effects of the Host, in program order. *)
Inductive event : Type :=
| EvSpawn (nm ad : string)                  (* ProcessSpawner(NodeGroup, nm, ad) *)
| EvSetItem (nm : string) (ps : ProcessSpawner)    (* self.nodegroup_process[nm] = ps *)
| EvAnyNodeRunning (c : RPCClient)          (* client.any_node_running() *)
| EvStop (ps : ProcessSpawner)              (* ps.stop() *)
| EvDelItem (nm : string)                   (* del self.nodegroup_process[nm] *)
| EvServerClose.                            (* RPCServer.close(self) *)

Record state : Type :=
  { host_name : string;
    host_addr : string;
    nodegroup_process : PyDict.dict ProcessSpawner;
    log : list event }.

Definition emit (e : event) : M state unit :=
  modify (fun s => {| host_name := host_name s; host_addr := host_addr s;
                      nodegroup_process := nodegroup_process s;
                      log := log s ++ [e] |}).

Definition set_registry (d : PyDict.dict ProcessSpawner) : M state unit :=
  modify (fun s => {| host_name := host_name s; host_addr := host_addr s;
                      nodegroup_process := d; log := log s |}).

(** [Host.__init__] *)
Definition init (nm ad : string) : state :=
  {| host_name := nm; host_addr := ad; nodegroup_process := []; log := [] |}.

Section WithEnvironment.

(** What the constructor [ProcessSpawner(NodeGroup, name, addr)] does when
    called after the given history: it raises, or it yields a handle. *)
Variable spawner : string -> string -> list event -> exn + ProcessSpawner.

(** Reply to the remote call [client.any_node_running()] after the given
    history: the call raises, or it reports a truth value. *)
Variable any_node_running_reply : RPCClient -> list event -> exn + bool.

Definition ProcessSpawner_new (nm ad : string) : M state ProcessSpawner :=
  h <- gets log ;;
  emit (EvSpawn nm ad) ;;;
  match spawner nm ad h with
  | inl e => raise e
  | inr ps => ret ps
  end.

Definition any_node_running (c : RPCClient) : M state bool :=
  h <- gets log ;;
  emit (EvAnyNodeRunning c) ;;;
  match any_node_running_reply c h with
  | inl e => raise e
  | inr b => ret b
  end.

(** Modelled from the spec: [ProcessSpawner.stop] (processspawner.py is
    missing) requests shutdown through the proxy, waits for the process to
    exit and force-terminates it if it is still alive; it has no failure
    outcome. *)
Definition stop (ps : ProcessSpawner) : M state unit := emit (EvStop ps).

(** Modelled from the spec: [RPCServer.close] (rpc.py is missing) releases
    the listening resources of the server. *)
Definition RPCServer_close : M state unit := emit EvServerClose.

(** [self.nodegroup_process[nm]] *)
Definition registry_get (nm : string) : M state ProcessSpawner :=
  d <- gets nodegroup_process ;;
  match PyDict.getitem nm d with
  | Some ps => ret ps
  | None => raise (KeyError nm)
  end.

(** [self.nodegroup_process[nm] = ps] *)
Definition registry_set (nm : string) (ps : ProcessSpawner) : M state unit :=
  d <- gets nodegroup_process ;;
  set_registry (PyDict.setitem nm ps d) ;;;
  emit (EvSetItem nm ps).

(** [del self.nodegroup_process[nm]] *)
Definition registry_del (nm : string) : M state unit :=
  d <- gets nodegroup_process ;;
  match PyDict.delitem nm d with
  | Some d' => set_registry d' ;;; emit (EvDelItem nm)
  | None => raise (KeyError nm)
  end.

Definition create_nodegroup (nm ad : string) : M state (string * string) :=
  d <- gets nodegroup_process ;;
  assert_ (negb (PyDict.contains nm d)) "This node group already exists" ;;;
  ps <- ProcessSpawner_new nm ad ;;
  registry_set nm ps ;;;
  ret (name ps, addr ps).

Definition close_nodegroup (nm : string) (force : bool) : M state unit :=
  ps <- registry_get nm ;;
  let c := client ps in
  (if negb force then
     r <- any_node_running c ;;
     assert_ (negb r) "Try to close Host but Node are running"
   else ret tt) ;;;
  ps' <- registry_get nm ;;
  stop ps' ;;;
  registry_del nm.

Definition close_all_nodegroups (force : bool) : M state unit :=
  names <- gets (fun s => PyDict.keys (nodegroup_process s)) ;;
  for_each names (fun nm => close_nodegroup nm force).

Definition close : M state unit :=
  close_all_nodegroups true ;;;
  RPCServer_close.

End WithEnvironment.

(** The two error kinds of the Host, as the code raises them. *)
Definition AlreadyExists : exn := AssertionError "This node group already exists".
Definition NodesStillRunning : exn :=
  AssertionError "Try to close Host but Node are running".

(** Events a forced close of the registry [d] leaves, entry after entry. *)
Definition closing_events (d : PyDict.dict ProcessSpawner) : list event :=
  flat_map (fun '(nm, ps) => [EvStop ps; EvDelItem nm]) d.

(** A concrete environment: every spawn succeeds and echoes its arguments,
    every NodeGroup reports a running Node. *)
Definition echo_spawner (nm ad : string) (_ : list event) : exn + ProcessSpawner :=
  inr {| name := nm; addr := ad;
         client := {| client_name := nm; client_addr := ad |} |}.
Definition busy_reply (_ : RPCClient) (_ : list event) : exn + bool := inr true.
Definition idle_reply (_ : RPCClient) (_ : list event) : exn + bool := inr false.
Definition failing_spawner (_ _ : string) (_ : list event) : exn + ProcessSpawner :=
  inl (RemoteError "SpawnTimeout").

(** A Host with one NodeGroup, as [create_nodegroup] leaves it. *)
Definition ng0 : ProcessSpawner :=
  {| name := "ng0"; addr := "tcp://127.0.0.1:5000";
     client := {| client_name := "ng0"; client_addr := "tcp://127.0.0.1:5000" |} |}.

Definition host1 : state :=
  {| host_name := "host"; host_addr := "tcp://127.0.0.1:4000";
     nodegroup_process := [("ng0", ng0)];
     log := [EvSpawn "ng0" "tcp://127.0.0.1:5000"; EvSetItem "ng0" ng0] |}.

(** *** The Host as a server

    The Host is reached by remote calls, one at a time; a call that raises
    reports the error to its caller and the Host goes on serving from the
    state the call left. *)

Inductive call : Type :=
| CreateNodegroup (nm ad : string)
| CloseNodegroup (nm : string) (force : bool)
| CloseAllNodegroups (force : bool)
| Close.

(** The state one call leaves, whether it returned or raised. *)
Definition serve (spawner : string -> string -> list event -> exn + ProcessSpawner)
  (reply : RPCClient -> list event -> exn + bool) (c : call) (s : state) : state :=
  match c with
  | CreateNodegroup nm ad => snd (create_nodegroup spawner nm ad s)
  | CloseNodegroup nm force => snd (close_nodegroup reply nm force s)
  | CloseAllNodegroups force => snd (close_all_nodegroups reply force s)
  | Close => snd (close reply s)
  end.

Fixpoint serve_all (spawner : string -> string -> list event -> exn + ProcessSpawner)
  (reply : RPCClient -> list event -> exn + bool) (cs : list call) (s : state)
  : state :=
  match cs with
  | [] => s
  | c :: cs' => serve_all spawner reply cs' (serve spawner reply c s)
  end.

(** [replays d l d']: the effects [l], in order, lead from the registry [d]
    to the registry [d'], every assignment being to a name not yet
    registered and every deletion coming right after the stop of the
    handle registered under the deleted name. *)
Fixpoint replays (d : PyDict.dict ProcessSpawner) (l : list event)
  (d' : PyDict.dict ProcessSpawner) : Prop :=
  match l with
  | [] => d' = d
  | EvSetItem nm ps :: rest =>
      ~ In nm (PyDict.keys d) /\ replays (d ++ [(nm, ps)]) rest d'
  | EvStop ps :: rest =>
      match rest with
      | EvDelItem nm :: rest' =>
          PyDict.getitem nm d = Some ps /\
          exists d1, PyDict.delitem nm d = Some d1 /\ replays d1 rest' d'
      | _ => False
      end
  | EvDelItem _ :: _ => False
  | _ :: rest => replays d rest d'
  end.

(** The registry keeps distinct keys and is what the log replays to. *)
Definition sound (s : state) : Prop :=
  PyDict.wf (nodegroup_process s) /\ replays [] (log s) (nodegroup_process s).

(** A NodeGroup that answers [any_node_running()] the same way whenever it
    is asked. *)
Definition steady_reply (busy : RPCClient -> bool) (c : RPCClient)
  (_ : list event) : exn + bool := inr (busy c).

(** Events an unforced close of the idle NodeGroups [d] leaves. *)
Definition polite_closing_events (d : PyDict.dict ProcessSpawner) : list event :=
  flat_map (fun '(nm, ps) => [EvAnyNodeRunning (client ps); EvStop ps; EvDelItem nm]) d.

(** The handle [echo_spawner] returns. *)
Definition ng_echo (nm ad : string) : ProcessSpawner :=
  {| name := nm; addr := ad;
     client := {| client_name := nm; client_addr := ad |} |}.

(** Three NodeGroups, the second of which is busy. *)
Definition ng (nm : string) : ProcessSpawner :=
  {| name := nm; addr := "tcp://127.0.0.1:*";
     client := {| client_name := nm; client_addr := "tcp://127.0.0.1:*" |} |}.

Definition host3 : state :=
  {| host_name := "host"; host_addr := "tcp://127.0.0.1:4000";
     nodegroup_process := [("a", ng "a"); ("b", ng "b"); ("c", ng "c")];
     log := [] |}.

Definition b_is_busy (c : RPCClient) : bool := String.eqb (client_name c) "b".

(** An unreachable NodeGroup: the remote call times out. *)
Definition timeout_reply (_ : RPCClient) (_ : list event) : exn + bool :=
  inl (RemoteError "Timeout").

End Host.

(** ** [pyacq/core/tools.py]: [ThreadPollInput]

    The poller is a thread; another thread calls [stop()] and [wait()], and
    the stream it observes can be destroyed meanwhile.  The model is a
    transition system: one step of the [run()] thread, of a caller of
    [stop()], of a caller of [wait()], or of the owner of a stream, under any
    schedule.  Source lines of [run] name the control points. *)

Module Poller.
#[local] Set Implicit Arguments.
#[local] Set Contextual Implicit.

Inductive thread : Type := RunThread | Caller.

Definition thread_eqb (a b : thread) : bool :=
  match a, b with
  | RunThread, RunThread | Caller, Caller => true
  | _, _ => false
  end.

Section WithData.
Variable Data : Type.

(** Control points of [ThreadPollInput.run]. *)
Inductive run_pc : Type :=
| L35                       (* with self.running_lock: (not yet acquired) *)
| L36                       (* self.running = True, lock held *)
| L39                       (* with self.running_lock: (not yet acquired) *)
| L40                       (* if not self.running: break, lock held *)
| L42                       (* if self.input_stream() is None: break, lock held *)
| L45                       (* ev = self.input_stream().poll(...); if ev>0 *)
| L47                       (* self._pos, data = self.input_stream().recv() *)
| L48 (data : option Data)  (* self.process_data(self._pos, data) *)
| Returned                  (* run() has returned *)
| Raised (e : exn).         (* run() died with an exception *)

(** Control points of [ThreadPollInput.stop], run by another thread. *)
Inductive stop_pc : Type :=
| Outside                   (* not inside the with-block of stop() *)
| L56.                      (* self.running = False, lock held *)

(** What happened.  An access to the flag or to the weak reference inside
    a with-block records who held [running_lock] at that moment. *)
Inductive event : Type :=
| EvSetRunning (holder : option thread) (by_ : thread) (v : bool)
| EvTestRunning (holder : option thread) (v : bool)      (* line 40 *)
| EvTestStream (holder : option thread) (alive : bool)   (* line 42 *)
| EvPoll (timeout ev : Z)                                (* line 45 *)
| EvRecv (pos : Z) (data : option Data)                  (* line 47 *)
| EvDispatch (pos : option Z) (data : option Data)       (* line 48 *)
| EvReturn
| EvRaise (e : exn)
| EvStopReturn                                           (* stop() returned *)
| EvWaitReturn                                           (* wait() returned *)
| EvDestroy (stream : nat).                              (* a stream was freed *)

(** Events of the [run()] thread itself. *)
Definition is_run_event (e : event) : bool :=
  match e with
  | EvSetRunning _ by_ _ => thread_eqb by_ RunThread
  | EvTestRunning _ _ | EvTestStream _ _ | EvPoll _ _ | EvRecv _ _
  | EvDispatch _ _ | EvReturn | EvRaise _ => true
  | EvStopReturn | EvWaitReturn | EvDestroy _ => false
  end.

Definition is_dispatch (e : event) : bool :=
  match e with EvDispatch _ _ => true | _ => false end.

(** The object and its surroundings.  [history] is newest first. *)
Record sys : Type :=
  { input_stream : nat;              (* weakref.ref(input_stream): the referent *)
    timeout : Z;
    running : bool;
    running_lock : option thread;    (* Mutex: who holds it *)
    _pos : option Z;
    pc_run : run_pc;
    pc_stop : stop_pc;
    live : nat -> bool;              (* which stream objects still exist *)
    history : list event }.

(** [self.input_stream()]: a weak reference yields its referent while it
    exists and [None] afterwards. *)
Definition deref (s : sys) : option nat :=
  if live s (input_stream s) then Some (input_stream s) else None.

(** [ThreadPollInput.__init__(input_stream, timeout)], followed by the start
    of the thread; [input_stream] is a live object when it is passed. *)
Definition init (stream : nat) (tmo : Z) : sys :=
  {| input_stream := stream; timeout := tmo;
     running := false; running_lock := None; _pos := None;
     pc_run := L35; pc_stop := Outside;
     live := fun _ => true; history := [] |}.

(** What the stream answers to the next [poll] and [recv]. *)
Record reply : Type := { ev : Z; msg : Z * option Data }.

Definition NoneType_has_no (attr : string) : exn :=
  AttributeError ("'NoneType' object has no attribute '" ++ attr ++ "'").

Definition upd (s : sys) (r : bool) (l : option thread) (p : option Z)
  (pr : run_pc) (ps : stop_pc) (es : list event) : sys :=
  {| input_stream := input_stream s; timeout := timeout s;
     running := r; running_lock := l; _pos := p;
     pc_run := pr; pc_stop := ps;
     live := live s; history := es ++ history s |}.

(** One step of the [run()] thread.  A thread that waits for the lock, or
    that has finished, does not move. *)
Definition run_step (r : reply) (s : sys) : sys :=
  let lk := running_lock s in
  match pc_run s with
  | L35 =>
      match lk with
      | None => upd s (running s) (Some RunThread) (_pos s) L36 (pc_stop s) []
      | Some _ => s
      end
  | L36 =>
      upd s true None (_pos s) L39 (pc_stop s) [EvSetRunning lk RunThread true]
  | L39 =>
      match lk with
      | None => upd s (running s) (Some RunThread) (_pos s) L40 (pc_stop s) []
      | Some _ => s
      end
  | L40 =>
      if negb (running s)
      then upd s (running s) None (_pos s) Returned (pc_stop s)
             [EvReturn; EvTestRunning lk false]
      else upd s (running s) lk (_pos s) L42 (pc_stop s) [EvTestRunning lk true]
  | L42 =>
      match deref s with
      | None => upd s (running s) None (_pos s) Returned (pc_stop s)
                  [EvReturn; EvTestStream lk false]
      | Some _ => upd s (running s) None (_pos s) L45 (pc_stop s)
                  [EvTestStream lk true]
      end
  | L45 =>
      match deref s with
      | None => upd s (running s) lk (_pos s) (Raised (NoneType_has_no "poll"))
                  (pc_stop s) [EvRaise (NoneType_has_no "poll")]
      | Some _ =>
          upd s (running s) lk (_pos s) (if (ev r >? 0)%Z then L47 else L39)
            (pc_stop s) [EvPoll (timeout s) (ev r)]
      end
  | L47 =>
      match deref s with
      | None => upd s (running s) lk (_pos s) (Raised (NoneType_has_no "recv"))
                  (pc_stop s) [EvRaise (NoneType_has_no "recv")]
      | Some _ =>
          upd s (running s) lk (Some (fst (msg r))) (L48 (snd (msg r)))
            (pc_stop s) [EvRecv (fst (msg r)) (snd (msg r))]
      end
  | L48 data =>
      upd s (running s) lk (_pos s) L39 (pc_stop s) [EvDispatch (_pos s) data]
  | Returned | Raised _ => s
  end.

(** One step of a thread that calls [stop()]. *)
Definition stop_step (s : sys) : sys :=
  match pc_stop s with
  | Outside =>
      match running_lock s with
      | None => upd s (running s) (Some Caller) (_pos s) (pc_run s) L56 []
      | Some _ => s
      end
  | L56 =>
      upd s false None (_pos s) (pc_run s) Outside
        [EvStopReturn; EvSetRunning (running_lock s) Caller false]
  end.

Definition finished (s : sys) : bool :=
  match pc_run s with Returned | Raised _ => true | _ => false end.

(** [wait()] returns once the thread has finished, and not before. *)
Definition wait_step (s : sys) : sys :=
  if finished s
  then upd s (running s) (running_lock s) (_pos s) (pc_run s) (pc_stop s)
         [EvWaitReturn]
  else s.

(** The last strong reference to stream [n] is dropped. *)
Definition destroy_step (n : nat) (s : sys) : sys :=
  {| input_stream := input_stream s; timeout := timeout s;
     running := running s; running_lock := running_lock s; _pos := _pos s;
     pc_run := pc_run s; pc_stop := pc_stop s;
     live := fun m => if Nat.eqb m n then false else live s m;
     history := EvDestroy n :: history s |}.

Inductive action : Type :=
| Run (r : reply)
| Stop
| Wait
| Destroy (stream : nat).

Definition step (a : action) (s : sys) : sys :=
  match a with
  | Run r => run_step r s
  | Stop => stop_step s
  | Wait => wait_step s
  | Destroy n => destroy_step n s
  end.

(** A schedule, first action first. *)
Fixpoint exec (sched : list action) (s : sys) : sys :=
  match sched with
  | [] => s
  | a :: rest => exec rest (step a s)
  end.

Definition run_events (s : sys) : list event := filter is_run_event (history s).

Definition dispatches (s : sys) : nat := List.length (filter is_dispatch (history s)).

(** [run()] has executed line 36: the loop has been entered. *)
Definition in_loop (s : sys) : bool :=
  match pc_run s with L35 | L36 => false | _ => true end.

(** *** The shape of the loop, read off the events of the [run()] thread

    [justified tmo e prev]: the event [e] of the [run()] thread is licensed
    by the events [prev] the thread produced before it (newest first). *)

(** Events after which the loop goes back to line 39. *)
Definition resumes (e : event) : Prop :=
  match e with
  | EvSetRunning _ RunThread true => True
  | EvPoll _ ev => (ev <= 0)%Z
  | EvDispatch _ _ => True
  | _ => False
  end.

Definition justified (tmo : Z) (e : event) (prev : list event) : Prop :=
  match e with
  | EvSetRunning h by_ v =>
      h = Some RunThread /\ by_ = RunThread /\ v = true /\ prev = []
  | EvTestRunning h _ =>
      h = Some RunThread /\ exists e' rest, prev = e' :: rest /\ resumes e'
  | EvTestStream h _ =>
      h = Some RunThread /\
      exists rest, prev = EvTestRunning (Some RunThread) true :: rest
  | EvPoll t _ =>
      t = tmo /\ exists rest, prev = EvTestStream (Some RunThread) true :: rest
  | EvRecv _ _ =>
      exists t ev rest, prev = EvPoll t ev :: rest /\ (ev > 0)%Z
  | EvDispatch p d =>
      exists p' rest, p = Some p' /\ prev = EvRecv p' d :: rest
  | EvReturn =>
      exists h rest, prev = EvTestRunning h false :: rest \/
                     prev = EvTestStream h false :: rest
  | EvRaise _ =>
      (exists rest, prev = EvTestStream (Some RunThread) true :: rest) \/
      (exists t ev rest, prev = EvPoll t ev :: rest /\ (ev > 0)%Z)
  | EvStopReturn | EvWaitReturn | EvDestroy _ => False
  end.

Fixpoint all_justified (tmo : Z) (l : list event) : Prop :=
  match l with
  | [] => True
  | e :: prev => justified tmo e prev /\ all_justified tmo prev
  end.

(** The control point of [run()] against the last event of the thread. *)
Definition pc_matches (s : sys) : Prop :=
  match pc_run s with
  | L35 | L36 => run_events s = []
  | L39 | L40 => exists e rest, run_events s = e :: rest /\ resumes e
  | L42 => exists rest, run_events s = EvTestRunning (Some RunThread) true :: rest
  | L45 => exists rest, run_events s = EvTestStream (Some RunThread) true :: rest
  | L47 => exists t ev rest, run_events s = EvPoll t ev :: rest /\ (ev > 0)%Z
  | L48 d => exists p rest, _pos s = Some p /\ run_events s = EvRecv p d :: rest
  | Returned => exists rest, run_events s = EvReturn :: rest
  | Raised e => exists rest, run_events s = EvRaise e :: rest
  end.

(** Control points of [run()] inside a with-block. *)
Definition holds_lock (p : run_pc) : bool :=
  match p with L36 | L40 | L42 => true | _ => false end.

(** The mutex against the control points of the two threads. *)
Definition lock_matches (s : sys) : Prop :=
  match running_lock s with
  | None => holds_lock (pc_run s) = false /\ pc_stop s = Outside
  | Some RunThread => holds_lock (pc_run s) = true /\ pc_stop s = Outside
  | Some Caller => holds_lock (pc_run s) = false /\ pc_stop s = L56
  end.

(** An access to the flag is made by the holder of the lock. *)
Definition under_lock (e : event) : Prop :=
  match e with
  | EvSetRunning h by_ _ => h = Some by_
  | EvTestRunning h _ | EvTestStream h _ => h = Some RunThread
  | _ => True
  end.

(** No dispatch is newer than a return of [wait()]. *)
Fixpoint quiet_after_wait (l : list event) : Prop :=
  match l with
  | [] => True
  | e :: older =>
      (is_dispatch e = true -> ~ In EvWaitReturn older) /\ quiet_after_wait older
  end.

Definition inv (s : sys) : Prop :=
  all_justified (timeout s) (run_events s) /\
  pc_matches s /\
  lock_matches s /\
  Forall under_lock (history s) /\
  quiet_after_wait (history s) /\
  (In EvWaitReturn (history s) -> finished s = true).

(** Dispatches the [run()] thread can still make once the flag is cleared. *)
Definition budget (p : run_pc) : nat :=
  match p with L42 | L45 | L47 | L48 _ => 1 | _ => 0 end.

(** Steps of [run()] to its end once the flag is cleared, the lock free. *)
Definition steps_left (p : run_pc) : nat :=
  match p with
  | L45 => 5 | L47 => 4 | L48 _ => 3 | L39 => 2 | L40 => 1
  | _ => 0
  end.

(** The flag is cleared for good and at most one more dispatch can come:
    [base] counts the dispatches made when [stop()] returned. *)
Definition cleared (base : nat) (s : sys) : Prop :=
  running s = false /\ in_loop s = true /\
  dispatches s + budget (pc_run s) <= base + 1.

(** The flag is cleared and only the [run()] thread moves. *)
Definition draining (s : sys) : Prop :=
  running s = false /\ pc_stop s = Outside /\ in_loop s = true /\
  pc_run s <> L42 /\
  running_lock s = (if holds_lock (pc_run s) then Some RunThread else None).

(** *** Positions and messages *)

(** [ThreadPollInput.pos] *)
Definition pos (s : sys) : option Z := _pos s.

(** The messages received so far, newest first. *)
Fixpoint received (l : list event) : list (Z * option Data) :=
  match l with
  | [] => []
  | EvRecv p d :: rest => (p, d) :: received rest
  | _ :: rest => received rest
  end.

(** What was handed to [process_data] so far, newest first. *)
Fixpoint dispatched (l : list event) : list (option Z * option Data) :=
  match l with
  | [] => []
  | EvDispatch p d :: rest => (p, d) :: dispatched rest
  | _ :: rest => dispatched rest
  end.

Definition as_dispatched (m : Z * option Data) : option Z * option Data :=
  (Some (fst m), snd m).

(** Calls made on the stream: [poll] and [recv]. *)
Definition is_stream_call (e : event) : bool :=
  match e with EvPoll _ _ | EvRecv _ _ => true | _ => false end.

Definition stream_calls (s : sys) : list event :=
  filter is_stream_call (history s).

(** The message in flight: received, not yet handed to [process_data]. *)
Definition in_flight (s : sys) : bool :=
  match pc_run s with L48 _ => true | _ => false end.

(** [_pos] is the position of the newest message; all received messages
    but the one in flight have been dispatched, with their positions. *)
Definition delivery (s : sys) : Prop :=
  _pos s = option_map fst (hd_error (received (history s))) /\
  match pc_run s with
  | L48 d =>
      exists p rest, received (history s) = (p, d) :: rest /\
                     dispatched (history s) = map as_dispatched rest
  | _ => dispatched (history s) = map as_dispatched (received (history s))
  end.

(** Steps of other threads than [run()]. *)
Definition is_run_action (a : action) : bool :=
  match a with Run _ => true | _ => false end.

(** *** A [stop()] that comes too early *)

(** Steps of [run()] and of a caller of [wait()]: no further [stop()], and
    the stream stays. *)
Definition is_run_or_wait (a : action) : bool :=
  match a with Run _ | Wait => true | Stop | Destroy _ => false end.

(** The loop cannot end: the stream is there and, once line 36 is passed,
    the flag is set; [run()] has not finished, [wait()] has not returned,
    and no test of the flag has found it cleared. *)
Definition unstopped (s : sys) : Prop :=
  finished s = false /\
  live s (input_stream s) = true /\
  ~ In EvWaitReturn (history s) /\
  (in_loop s = true -> running s = true) /\
  (forall h v, In (EvTestRunning h v) (history s) -> v = true).

End WithData.

(** *** Concrete schedules, with integers for data *)

(** A reply with a message waiting, and one for a poll that times out. *)
Definition a_message : reply Z := {| ev := 12; msg := (500%Z, Some 7%Z) |}.
Definition no_message : reply Z := {| ev := 0; msg := (0%Z, None) |}.

(** [run()] up to the end of its first round, with a message waiting. *)
Definition one_round : list (action Z) := repeat (Run a_message) 8.

(** [stop()] is called while the poller waits in [poll]; the caller holds
    the lock and is about to clear the flag. *)
Definition stop_during_poll : list (action Z) :=
  repeat (Run a_message) 5 ++ [Stop].

End Poller.

(** ** [pyacq/core/tools.py]: stream converter and channel splitter *)

Module Tools.
#[local] Set Implicit Arguments.
#[local] Set Contextual Implicit.
Import Eff.
Local Open Scope eff_scope.

(** [str(n)] for a Python int, as ['{}'.format(n)] prints it. *)
Definition str_of_int (n : Z) : string := NilZero.string_of_int (Z.to_int n).

(** [min(l)] and [max(l)] of a Python list of ints. *)
Definition py_min (l : list Z) : exn + Z :=
  match l with
  | [] => inl (ValueError "min() arg is an empty sequence")
  | x :: r => inr (fold_left Z.min r x)
  end.

Definition py_max (l : list Z) : exn + Z :=
  match l with
  | [] => inl (ValueError "max() arg is an empty sequence")
  | x :: r => inr (fold_left Z.max r x)
  end.

Definition lift {S A} (r : exn + A) : M S A :=
  match r with inl e => raise e | inr a => ret a end.

(** A value stored in a stream's parameter dictionary. *)
Inductive param_value : Type :=
| PNone
| PStr (s : string)
| PInt (z : Z)
| PShape (dims : list Z).

Definition param_eqb (a b : param_value) : bool :=
  match a, b with
  | PNone, PNone => true
  | PStr s, PStr t => String.eqb s t
  | PInt x, PInt y => Z.eqb x y
  | PShape x, PShape y => if list_eq_dec Z.eq_dec x y then true else false
  | _, _ => false
  end.

(** [output_timeaxis]: an int or the string ['same']. *)
Inductive timeaxis_cfg : Type := Same | Axis (t : Z).

(** An argument at a call site of [get_array_slice]. *)
Inductive pyarg : Type :=
| ArgThread          (* the poller object itself *)
| ArgInt (z : Z)
| ArgNone.

Section WithSample.
Variable Sample : Type.   (* element type of the arrays *)
Variable Rate : Type.     (* type of [sample_rate] *)

(** A two-dimensional numpy array of shape [(length rows, ncols)]. *)
Record ndarray : Type := { ncols : nat; rows : list (list Sample) }.

Definition well_shaped (a : ndarray) : Prop :=
  Forall (fun r => List.length r = ncols a) (rows a).

(** An index on an axis of size [n]: negative indices count from the end. *)
Definition axis_index (n : nat) (i : Z) : option nat :=
  if ((0 <=? i) && (i <? Z.of_nat n))%Z then Some (Z.to_nat i)
  else if ((- Z.of_nat n <=? i) && (i <? 0))%Z then Some (Z.to_nat (i + Z.of_nat n))
  else None.

Fixpoint axis_indices (n : nat) (l : list Z) : exn + list nat :=
  match l with
  | [] => inr []
  | i :: l' =>
      match axis_index n i with
      | None => inl (IndexError ("index " ++ str_of_int i ++
                                 " is out of bounds for axis 1 with size " ++
                                 str_of_int (Z.of_nat n)))
      | Some j =>
          match axis_indices n l' with
          | inl e => inl e
          | inr js => inr (j :: js)
          end
      end
  end.

Definition pick (r : list Sample) (js : list nat) : list Sample :=
  flat_map (fun j => match nth_error r j with Some x => [x] | None => [] end) js.

(** [data[:, chans]] with [chans] a list of ints. *)
Definition take_columns (a : ndarray) (chans : list Z) : exn + ndarray :=
  match axis_indices (ncols a) chans with
  | inl e => inl e
  | inr js => inr {| ncols := List.length chans;
                     rows := map (fun r => pick r js) (rows a) |}
  end.

(** The columns [chans] of [a], for indices known to be in range. *)
Definition columns (a : ndarray) (chans : list Z) : ndarray :=
  {| ncols := List.length chans;
     rows := map (fun r => pick r (map Z.to_nat chans)) (rows a) |}.

(** The entries of [self.input.params] that the modelled code reads. *)
Record params : Type :=
  { timeaxis : Z; nb_channel : Z; dtype : string; sample_rate : Rate }.

(** Modelled from the spec: the stream classes (stream.py is missing).  An
    [InputStream] is known by its negotiated [params], an [OutputStream]
    by the spec it was built with. *)
Record InputStream : Type := { input_params : params }.

(** The dictionary [stream_spec] built in [after_input_connect]. *)
Record stream_spec : Type :=
  { spec_streamtype : string;
    spec_dtype : string;
    spec_sample_rate : Rate;
    spec_shape : Z * Z;
    spec_port : string;
    spec_nb_channel : Z;
    spec_timeaxis : Z }.

(** [OutputStream(spec=stream_spec)] *)
Record OutputStream : Type := { spec : stream_spec }.

(** Calls made on the streams, in program order. *)
Inductive event : Type :=
| EvGetArraySlice (pos : Z) (length : option Z)
| EvSend (output : string) (pos : Z) (data : option ndarray).

(** Content of the shared ring buffer: what [get_array_slice(pos, length)]
    yields, or the exception it raises. *)
Variable shared_slice : Z -> option Z -> exn + ndarray.

(** Modelled from the spec: [InputStream.get_array_slice(position, length)]
    (stream.py is missing) takes a position and a length; a call with
    another number of arguments is a [TypeError], as for any Python
    method. *)
Definition get_array_slice (args : list pyarg) : M (list event) ndarray :=
  match args with
  | [ArgInt pos; ArgNone] =>
      modify (fun l => l ++ [EvGetArraySlice pos None]) ;;;
      lift (shared_slice pos None)
  | [ArgInt pos; ArgInt n] =>
      modify (fun l => l ++ [EvGetArraySlice pos (Some n)]) ;;;
      lift (shared_slice pos (Some n))
  | [_; _] => raise (TypeError "get_array_slice(): position must be an int")
  | _ => raise (TypeError
           "get_array_slice() takes 3 positional arguments but 4 were given")
  end.

(** Modelled from the spec: [OutputStream.send(position, data)]
    (stream.py is missing) hands the pair to the transport. *)
Definition send (output : string) (pos : Z) (data : option ndarray)
  : M (list event) unit :=
  modify (fun l => l ++ [EvSend output pos data]).

(** *** [ThreadStreamConverter] *)

Record ThreadStreamConverter : Type :=
  { conv_input_stream : option InputStream;    (* self.input_stream() *)
    conv_output_stream : option OutputStream;  (* self.output_stream() *)
    conversions : PyDict.dict (param_value * param_value) }.

(** ['transfermode' in self.conversions and
     self.conversions['transfermode'][0]=='sharedarray'] *)
Definition converts_from_sharedarray (t : ThreadStreamConverter) : bool :=
  PyDict.contains "transfermode" (conversions t) &&
  match PyDict.getitem "transfermode" (conversions t) with
  | Some (old, _) => param_eqb old (PStr "sharedarray")
  | None => false
  end.

Definition ThreadStreamConverter_process_data (t : ThreadStreamConverter)
  (pos : Z) (data : option ndarray) : M (list event) unit :=
  data' <- (if converts_from_sharedarray t then
              match conv_input_stream t with
              | None => raise (Poller.NoneType_has_no "get_array_slice")
              | Some _ =>
                  a <- get_array_slice [ArgThread; ArgInt pos; ArgNone] ;;
                  ret (Some a)
              end
            else ret data) ;;
  match conv_output_stream t with
  | None => raise (Poller.NoneType_has_no "send")
  | Some _ => send "out" pos data'
  end.

(** *** [ThreadSplitter] *)

Record ThreadSplitter : Type :=
  { ts_input_stream : option InputStream;            (* self.input_stream() *)
    ts_outputs_stream : PyDict.dict OutputStream;    (* WeakValueDictionary *)
    ts_output_channels : PyDict.dict (list Z) }.

Definition ThreadSplitter_process_data (t : ThreadSplitter)
  (pos : Z) (data : option ndarray) : M (list event) unit :=
  data' <- match data with
           | None =>
               match ts_input_stream t with
               | None => raise (Poller.NoneType_has_no "get_array_slice")
               | Some _ => get_array_slice [ArgInt pos; ArgNone]
               end
           | Some d => ret d
           end ;;
  for_each (ts_output_channels t) (fun '(k, chans) =>
    match PyDict.getitem k (ts_outputs_stream t) with
    | None => raise (KeyError k)
    | Some _ =>
        sub <- lift (take_columns data' chans) ;;
        send k pos (Some sub)
    end).

(** *** [ChannelSplitter] *)

Record ChannelSplitter : Type :=
  { input : InputStream;
    output_channels : PyDict.dict (list Z);
    output_timeaxis : timeaxis_cfg;
    outputs : PyDict.dict OutputStream }.

Definition _configure (oc : PyDict.dict (list Z)) (ota : timeaxis_cfg)
  (n : ChannelSplitter) : ChannelSplitter :=
  {| input := input n; output_channels := oc; output_timeaxis := ota;
     outputs := outputs n |}.

Definition with_output_timeaxis (ota : timeaxis_cfg) (n : ChannelSplitter)
  : ChannelSplitter :=
  {| input := input n; output_channels := output_channels n;
     output_timeaxis := ota; outputs := outputs n |}.

Definition with_outputs (o : PyDict.dict OutputStream) (n : ChannelSplitter)
  : ChannelSplitter :=
  {| input := input n; output_channels := output_channels n;
     output_timeaxis := output_timeaxis n; outputs := o |}.

(** [self.output_timeaxis = ota] *)
Definition set_output_timeaxis (ota : timeaxis_cfg) : M ChannelSplitter unit :=
  modify (with_output_timeaxis ota).

(** [self.outputs = o] *)
Definition set_outputs (o : PyDict.dict OutputStream) : M ChannelSplitter unit :=
  modify (with_outputs o).

(** [assert min(chans)>=0 and max(chans)<n, '...{}'.format(n)] *)
Definition check_channels (chans : list Z) (n : Z) : M ChannelSplitter unit :=
  lo <- lift (py_min chans) ;;
  ok <- (if (lo >=? 0)%Z
         then hi <- lift (py_max chans) ;; ret (hi <? n)%Z
         else ret false) ;;
  assert_ ok ("output_channels do not match channel count " ++ str_of_int n).

(** The body of the loop of [after_input_connect] up to the constructor. *)
Definition make_spec (p : params) (taxis : Z) (chans : list Z) : stream_spec :=
  let len := Z.of_nat (List.length chans) in
  {| spec_streamtype := "analogsignal";
     spec_dtype := dtype p;
     spec_sample_rate := sample_rate p;
     spec_shape := if (taxis =? 0)%Z then (-1, len)%Z else (len, -1)%Z;
     spec_port := "*";
     spec_nb_channel := len;
     spec_timeaxis := taxis |}.

Definition after_input_connect (inputname : string) : M ChannelSplitter unit :=
  ota <- gets output_timeaxis ;;
  p <- gets (fun n => input_params (input n)) ;;
  taxis <- match ota with
           | Same => set_output_timeaxis (Axis (timeaxis p)) ;;; ret (timeaxis p)
           | Axis t => ret t
           end ;;
  let n := nb_channel p in
  set_outputs [] ;;;
  oc <- gets output_channels ;;
  for_each oc (fun '(k, chans) =>
    check_channels chans n ;;;
    let output := {| spec := make_spec p taxis chans |} in
    o <- gets outputs ;;
    set_outputs (PyDict.setitem k output o)).

(** A channel group that passes the assertion of [after_input_connect]. *)
Definition valid_group (n : Z) (chans : list Z) : Prop :=
  chans <> [] /\ Forall (fun c => (0 <= c < n)%Z) chans.

(** The output slot [after_input_connect] derives for one channel group. *)
Definition derived_output (p : params) (taxis : Z) (kc : string * list Z)
  : string * OutputStream :=
  (fst kc, {| spec := make_spec p taxis (snd kc) |}).

(** [_initialize]: [ThreadSplitter(self.input, self.outputs, self.output_channels)] *)
Definition _initialize (n : ChannelSplitter) : ThreadSplitter :=
  {| ts_input_stream := Some (input n);
     ts_outputs_stream := outputs n;
     ts_output_channels := output_channels n |}.

(** Column [c] of a list of rows. *)
Definition pick_column (c : nat) (rs : list (list Sample)) : list Sample :=
  flat_map (fun r => pick r [c]) rs.

(** The samples of channel [c] in a chunk whose time axis is [taxis]: a
    column when time runs along axis 0, a row otherwise. *)
Definition channel (taxis : Z) (a : ndarray) (c : nat) : option (list Sample) :=
  if (taxis =? 0)%Z
  then (if Nat.ltb c (ncols a)
        then Some (pick_column c (rows a))
        else None)
  else nth_error (rows a) c.

(** Output [b] carries the channels [chans] of the chunk [a], in that
    order and no other channel, when [a] has its time along [in_axis] and
    [b] along [out_axis]. *)
Definition routes_channels (in_axis out_axis : Z) (a : ndarray)
  (chans : list Z) (b : ndarray) : Prop :=
  (forall i c, nth_error chans i = Some c ->
               channel out_axis b i = channel in_axis a (Z.to_nat c)) /\
  channel out_axis b (List.length chans) = None.

(** *** [StreamConverter] *)

(** The converter node: its two streams and their [params] dictionaries. *)
Record StreamConverter : Type :=
  { sc_input : InputStream;
    sc_output : OutputStream;
    sc_input_params : PyDict.dict param_value;    (* self.input.params *)
    sc_output_params : PyDict.dict param_value }. (* self.output.params *)

(** [k in ('port', 'protocol', 'interface', 'dtype')] *)
Definition checked_by_streams (k : string) : bool :=
  String.eqb k "port" || String.eqb k "protocol" ||
  String.eqb k "interface" || String.eqb k "dtype".

(** [d.get(k, None)] *)
Definition params_get (k : string) (d : PyDict.dict param_value) : param_value :=
  match PyDict.getitem k d with Some v => v | None => PNone end.

(** The loop of [StreamConverter._initialize] over the keys of
    [self.input.params]. *)
Fixpoint conversions_loop (ks : list string)
  (inp outp : PyDict.dict param_value)
  (acc : PyDict.dict (param_value * param_value))
  : PyDict.dict (param_value * param_value) :=
  match ks with
  | [] => acc
  | k :: ks' =>
      if checked_by_streams k then conversions_loop ks' inp outp acc
      else
        let old := params_get k inp in
        let new := params_get k outp in
        if negb (param_eqb old new) && negb (param_eqb old PNone)
        then conversions_loop ks' inp outp (PyDict.setitem k (old, new) acc)
        else conversions_loop ks' inp outp acc
  end.

Definition conversions_of (inp outp : PyDict.dict param_value)
  : PyDict.dict (param_value * param_value) :=
  conversions_loop (PyDict.keys inp) inp outp [].

(** [StreamConverter._initialize]: the thread it creates. *)
Definition StreamConverter_initialize (n : StreamConverter)
  : ThreadStreamConverter :=
  {| conv_input_stream := Some (sc_input n);
     conv_output_stream := Some (sc_output n);
     conversions := conversions_of (sc_input_params n) (sc_output_params n) |}.

(** *** Errors and reconnection of the splitter *)

(** The exception the assertion of [after_input_connect] raises on a group
    that is not valid. *)
Definition group_error (n : Z) (chans : list Z) : exn :=
  match chans with
  | [] => ValueError "min() arg is an empty sequence"
  | _ :: _ =>
      AssertionError ("output_channels do not match channel count " ++ str_of_int n)
  end.

(** The input of the node is connected anew. *)
Definition with_input (i : InputStream) (n : ChannelSplitter) : ChannelSplitter :=
  {| input := i; output_channels := output_channels n;
     output_timeaxis := output_timeaxis n; outputs := outputs n |}.

(** The time axis [after_input_connect] works with, and the node as its
    loop finds it: ['same'] resolved, no outputs yet. *)
Definition resolved_axis (n : ChannelSplitter) : Z :=
  match output_timeaxis n with
  | Same => timeaxis (input_params (input n))
  | Axis t => t
  end.

Definition resolved (n : ChannelSplitter) : ChannelSplitter :=
  with_outputs []
    (match output_timeaxis n with
     | Same => with_output_timeaxis (Axis (timeaxis (input_params (input n)))) n
     | Axis _ => n
     end).

(** Name and position of a [send]. *)
Definition send_target (e : event) : option (string * Z) :=
  match e with
  | EvSend k pos _ => Some (k, pos)
  | EvGetArraySlice _ _ => None
  end.

End WithSample.
(** *** The scenario of the spec: groups a = [0, 1] and b = [2, 3] over a
    four-channel input, with integer samples *)

Definition ab_groups : PyDict.dict (list Z) :=
  [("a", [0; 1]%Z); ("b", [2; 3]%Z)].

(** A four-channel input with time along axis [taxis]. *)
Definition input4 (taxis : Z) : InputStream Z :=
  {| input_params := {| timeaxis := taxis; nb_channel := 4;
                        dtype := "float32"; sample_rate := 1000%Z |} |}.

(** A freshly configured splitter on that input. *)
Definition splitter4 (taxis : Z) : ChannelSplitter Z :=
  _configure ab_groups Same
    {| input := input4 taxis; output_channels := []; output_timeaxis := Same;
       outputs := [] |}.

(** Three samples of four channels, time along axis 0: channel [c] is
    column [c]. *)
Definition chunk_axis0 : ndarray Z :=
  {| ncols := 4;
     rows := [[10; 20; 30; 40]; [11; 21; 31; 41]; [12; 22; 32; 42]]%Z |}.

(** Five samples of the same four channels, time along axis 1: channel
    [c] is row [c]. *)
Definition chunk_axis1 : ndarray Z :=
  {| ncols := 5;
     rows := [[10; 11; 12; 13; 14]; [20; 21; 22; 23; 24];
              [30; 31; 32; 33; 34]; [40; 41; 42; 43; 44]]%Z |}.

(** No shared memory behind the input. *)
Definition no_shared_memory (_ : Z) (_ : option Z) : exn + ndarray Z :=
  inl (AssertionError "transfermode is not sharedarray").

(** A shared ring buffer that holds [chunk_axis0] at every position. *)
Definition shared_chunk (_ : Z) (_ : option Z) : exn + ndarray Z :=
  inr chunk_axis0.

(** A converter from shared memory to plain data, both streams alive. *)
Definition shared_to_plain : ThreadStreamConverter Z :=
  {| conv_input_stream := Some (input4 0);
     conv_output_stream :=
       Some {| spec := make_spec (input_params (input4 0)) 0 [0; 1; 2; 3]%Z |};
     conversions :=
       [("transfermode", (PStr "sharedarray", PStr "plaindata"))] |}.

(** A converter between two shared-memory streams that differ in their
    buffer size only. *)
Definition shared_to_shared : ThreadStreamConverter Z :=
  {| conv_input_stream := Some (input4 0);
     conv_output_stream :=
       Some {| spec := make_spec (input_params (input4 0)) 0 [0; 1; 2; 3]%Z |};
     conversions :=
       [("sharedarray_shape", (PShape [4; 1024]%Z, PShape [4; 4096]%Z))] |}.

(** Parameters of a plain-data stream and of shared-memory streams. *)
Definition plain_params : PyDict.dict param_value :=
  [("protocol", PStr "tcp"); ("port", PInt 5000); ("dtype", PStr "float32");
   ("transfermode", PStr "plaindata"); ("nb_channel", PInt 4);
   ("timeaxis", PInt 0); ("shape", PShape [-1; 4]%Z)].

Definition shared_params (size : Z) : PyDict.dict param_value :=
  [("protocol", PStr "tcp"); ("port", PInt 6000); ("dtype", PStr "int32");
   ("transfermode", PStr "sharedarray"); ("nb_channel", PInt 4);
   ("timeaxis", PInt 0); ("shape", PShape [-1; 4]%Z);
   ("sharedarray_shape", PShape [size; 4]%Z)].

Definition converter_node (inp outp : PyDict.dict param_value) : StreamConverter Z :=
  {| sc_input := input4 0;
     sc_output := {| spec := make_spec (input_params (input4 0)) 0 [0; 1; 2; 3]%Z |};
     sc_input_params := inp; sc_output_params := outp |}.

(** A ring buffer whose data was overwritten. *)
Definition overwritten (_ : Z) (_ : option Z) : exn + ndarray Z :=
  inl (RemoteError "DataOverwritten").

(** A splitter whose second group names a channel the input does not have. *)
Definition splitter_bad : ChannelSplitter Z :=
  _configure [("a", [0; 1]%Z); ("b", [2; 4]%Z); ("c", [0]%Z)] Same (splitter4 0).

End Tools.

(** * Properties *)

(** ** Facts about dictionaries *)

Module PyDictFacts.
Import PyDict.
Section Facts.
Context {V : Type}.
Implicit Types (d : dict V) (k : string) (v : V).

Lemma contains_In k d : contains k d = true <-> In k (keys d).
Proof.
  unfold contains. induction d as [|[k' v] d IH]; simpl.
  - split; [discriminate | tauto].
  - destruct (String.eqb_spec k k') as [->|Hne].
    + split; auto.
    + rewrite IH. split; [auto | intros [E|H]; [congruence | exact H]].
Qed.

Lemma contains_false k d : contains k d = false <-> ~ In k (keys d).
Proof.
  rewrite <- contains_In. destruct (contains k d); split; congruence.
Qed.

Lemma setitem_fresh k v d :
  ~ In k (keys d) -> setitem k v d = d ++ [(k, v)].
Proof.
  induction d as [|[k' v'] d IH]; simpl; intros H; [reflexivity|].
  destruct (String.eqb_spec k k') as [->|Hne]; [tauto|].
  rewrite IH; tauto.
Qed.

Lemma getitem_head k v d : getitem k ((k, v) :: d) = Some v.
Proof. simpl. now rewrite String.eqb_refl. Qed.

Lemma delitem_head k v d : delitem k ((k, v) :: d) = Some d.
Proof. simpl. now rewrite String.eqb_refl. Qed.

Lemma getitem_In k d : In k (keys d) -> exists v, getitem k d = Some v.
Proof.
  intros H. apply contains_In in H. unfold contains in H.
  destruct (getitem k d) as [v|]; [now exists v | discriminate].
Qed.

Lemma getitem_app_fresh k v d :
  ~ In k (keys d) -> getitem k (d ++ [(k, v)]) = Some v.
Proof.
  induction d as [|[k' v'] d IH]; simpl; intros H.
  - now rewrite String.eqb_refl.
  - destruct (String.eqb_spec k k') as [->|Hne]; [tauto|].
    apply IH; tauto.
Qed.

Lemma keys_app d1 d2 : keys (d1 ++ d2) = keys d1 ++ keys d2.
Proof. apply map_app. Qed.

Lemma wf_setitem_fresh k v d : wf d -> ~ In k (keys d) -> wf (d ++ [(k, v)]).
Proof.
  unfold wf. intros Hd Hk. rewrite keys_app. simpl.
  apply NoDup_app; [exact Hd | constructor; [simpl; tauto | constructor] |].
  intros x Hx [<-|[]]. contradiction.
Qed.

Lemma wf_count k d : wf d -> In k (keys d) -> count_occ string_dec (keys d) k = 1.
Proof.
  intros Hd Hk. apply NoDup_count_occ' ; assumption.
Qed.


Lemma delitem_Some k v d :
  getitem k d = Some v -> exists d', delitem k d = Some d'.
Proof.
  induction d as [|[k' v'] d IH]; simpl; [discriminate|].
  destruct (String.eqb k k'); [now eexists|].
  intros H. destruct (IH H) as [d' ->]. now eexists.
Qed.

Lemma delitem_keys k d d' :
  delitem k d = Some d' -> forall x, In x (keys d') -> In x (keys d).
Proof.
  revert d'. induction d as [|[k' v'] d IH]; simpl; intros d' H x; [discriminate|].
  destruct (String.eqb k k').
  - injection H as <-. auto.
  - destruct (delitem k d) as [d''|]; [|discriminate].
    injection H as <-. simpl. intros [E|Hx]; [auto | right; now apply (IH d'')].
Qed.

Lemma delitem_removes k d d' :
  wf d -> delitem k d = Some d' -> ~ In k (keys d') /\ wf d'.
Proof.
  unfold wf. revert d'.
  induction d as [|[k' v'] d IH]; simpl; intros d' Hd H; [discriminate|].
  inversion Hd as [|? ? Hnotin Hnd]; subst.
  destruct (String.eqb_spec k k') as [->|Hne].
  - injection H as <-. split; assumption.
  - destruct (delitem k d) as [d''|] eqn:E; [|discriminate].
    injection H as <-. destruct (IH d'' Hnd eq_refl) as [Hk Hw].
    split.
    + simpl. intros [E'|Hin]; [congruence | contradiction].
    + simpl. constructor; [|exact Hw].
      intros Hin. apply Hnotin. eapply delitem_keys; eassumption.
Qed.


End Facts.
End PyDictFacts.

(** ** The Host *)

Module HostFacts.
Import Eff PyDict PyDictFacts Host.

Ltac run :=
  unfold create_nodegroup, close_nodegroup, close_all_nodegroups, close,
    ProcessSpawner_new, any_node_running, stop, RPCServer_close,
    registry_get, registry_set, registry_del, emit, set_registry,
    assert_, bind, ret, raise, gets, modify; simpl.

Section Facts.
Variable spawner : string -> string -> list event -> exn + ProcessSpawner.
Variable reply : RPCClient -> list event -> exn + bool.

(** A name that is already registered is refused, and the refused call
    touches neither the registry nor the outside world. *)
Lemma create_nodegroup_existing (s : state) (nm ad : string) :
  In nm (keys (nodegroup_process s)) ->
  create_nodegroup spawner nm ad s = (inl AlreadyExists, s).
Proof.
  intros H. apply contains_In in H. run. now rewrite H.
Qed.

(** A fresh name whose spawn succeeds is registered last. *)
Lemma create_nodegroup_fresh (s : state) (nm ad : string) (ps : ProcessSpawner) :
  ~ In nm (keys (nodegroup_process s)) ->
  spawner nm ad (log s) = inr ps ->
  create_nodegroup spawner nm ad s =
    (inr (name ps, addr ps),
     {| host_name := host_name s; host_addr := host_addr s;
        nodegroup_process := nodegroup_process s ++ [(nm, ps)];
        log := log s ++ [EvSpawn nm ad; EvSetItem nm ps] |}).
Proof.
  intros Hfresh Hsp. pose proof Hfresh as Hc. apply contains_false in Hc.
  run. rewrite Hc; simpl. rewrite Hsp; simpl.
  rewrite setitem_fresh by assumption. now rewrite <- app_assoc.
Qed.

(** The keys of the registry stay pairwise distinct. *)
Lemma create_nodegroup_wf (s : state) (nm ad : string) :
  wf (nodegroup_process s) ->
  wf (nodegroup_process (snd (create_nodegroup spawner nm ad s))).
Proof.
  intros Hwf.
  destruct (contains nm (nodegroup_process s)) eqn:Hc.
  - apply contains_In in Hc. now rewrite create_nodegroup_existing.
  - apply contains_false in Hc.
    destruct (spawner nm ad (log s)) as [e|ps] eqn:Hsp.
    + run. apply contains_false in Hc. rewrite Hc; simpl. now rewrite Hsp.
    + rewrite (create_nodegroup_fresh s nm ad ps Hc Hsp). simpl.
      now apply wf_setitem_fresh.
Qed.

(** Closing, forced or not, keeps the keys pairwise distinct. *)
Lemma close_nodegroup_wf (s : state) (nm : string) (force : bool) :
  wf (nodegroup_process s) ->
  wf (nodegroup_process (snd (close_nodegroup reply nm force s))).
Proof.
  intros Hwf. run.
  destruct (getitem nm (nodegroup_process s)) as [ps|] eqn:Hg; simpl; [|exact Hwf].
  destruct (delitem_Some nm ps _ Hg) as [d' Hd].
  destruct force; simpl.
  - rewrite Hg; simpl. rewrite Hd; simpl.
    exact (proj2 (delitem_removes nm _ _ Hwf Hd)).
  - destruct (reply (client ps) (log s)) as [e|[|]]; simpl; try exact Hwf.
    rewrite Hg; simpl. rewrite Hd; simpl.
    exact (proj2 (delitem_removes nm _ _ Hwf Hd)).
Qed.

(** A forced close of a registered name: stop, then delete. *)
Lemma close_nodegroup_forced (s : state) (nm : string) (ps : ProcessSpawner)
    (d' : dict ProcessSpawner) :
  getitem nm (nodegroup_process s) = Some ps ->
  delitem nm (nodegroup_process s) = Some d' ->
  close_nodegroup reply nm true s =
    (inr tt,
     {| host_name := host_name s; host_addr := host_addr s;
        nodegroup_process := d';
        log := log s ++ [EvStop ps; EvDelItem nm] |}).
Proof.
  intros Hg Hd. run. rewrite Hg; simpl. rewrite Hg; simpl. rewrite Hd; simpl.
  now rewrite <- app_assoc.
Qed.

(** An unforced close of a NodeGroup that reports a running Node. *)
Lemma close_nodegroup_refused (s : state) (nm : string) (ps : ProcessSpawner) :
  getitem nm (nodegroup_process s) = Some ps ->
  reply (client ps) (log s) = inr true ->
  close_nodegroup reply nm false s =
    (inl NodesStillRunning,
     {| host_name := host_name s; host_addr := host_addr s;
        nodegroup_process := nodegroup_process s;
        log := log s ++ [EvAnyNodeRunning (client ps)] |}).
Proof.
  intros Hg Hr. run. rewrite Hg; simpl. now rewrite Hr.
Qed.

(** The loop of [close_all_nodegroups(force=True)] over a snapshot of the
    keys, started on the registry the snapshot was taken from. *)
Lemma force_close_loop (d : dict ProcessSpawner) :
  forall hn ha l,
    for_each (keys d) (fun nm => close_nodegroup reply nm true)
      {| host_name := hn; host_addr := ha; nodegroup_process := d; log := l |}
    = (inr tt,
       {| host_name := hn; host_addr := ha; nodegroup_process := [];
          log := l ++ closing_events d |}).
Proof.
  induction d as [|[nm ps] d IH]; intros hn ha l; simpl.
  - unfold ret. now rewrite app_nil_r.
  - unfold bind at 1.
    rewrite close_nodegroup_forced with (ps := ps) (d' := d);
      [| apply getitem_head | apply delitem_head].
    simpl. rewrite IH. now rewrite <- app_assoc.
Qed.

(** C1: a first [create_nodegroup] with a fresh name spawns the process,
    records the handle and returns the (name, address) pair of the new
    NodeGroup; any further [create_nodegroup] with that name fails with
    AlreadyExists, changes nothing, and leaves exactly one NodeGroup
    registered under the name. *)
Theorem create_nodegroup_twice (s : state) (nm ad : string) (ps : ProcessSpawner) :
  wf (nodegroup_process s) ->
  ~ In nm (keys (nodegroup_process s)) ->
  spawner nm ad (log s) = inr ps ->
  exists s1,
    create_nodegroup spawner nm ad s = (inr (name ps, addr ps), s1) /\
    nodegroup_process s1 = nodegroup_process s ++ [(nm, ps)] /\
    log s1 = log s ++ [EvSpawn nm ad; EvSetItem nm ps] /\
    getitem nm (nodegroup_process s1) = Some ps /\
    (forall ad2, create_nodegroup spawner nm ad2 s1 = (inl AlreadyExists, s1)) /\
    count_occ string_dec (keys (nodegroup_process s1)) nm = 1.
Proof.
  intros Hwf Hfresh Hsp. eexists. split; [exact (create_nodegroup_fresh s nm ad ps Hfresh Hsp)|].
  simpl. assert (Hin : In nm (keys (nodegroup_process s ++ [(nm, ps)]))).
  { rewrite keys_app. apply in_or_app. right. simpl. now left. }
  repeat split.
  - now apply getitem_app_fresh.
  - intros ad2. now apply create_nodegroup_existing.
  - apply wf_count; [now apply wf_setitem_fresh | exact Hin].
Qed.

(** C2: on a registered name, [close_nodegroup(name, force=False)] fails
    with NodesStillRunning when the NodeGroup reports a running Node, and
    [close_nodegroup(name, force=True)] succeeds whatever the NodeGroup
    would report, stops the process and removes the name from the registry. *)
Theorem close_nodegroup_force_or_refuse (s : state) (nm : string)
    (ps : ProcessSpawner) :
  wf (nodegroup_process s) ->
  getitem nm (nodegroup_process s) = Some ps ->
  (reply (client ps) (log s) = inr true ->
   fst (close_nodegroup reply nm false s) = inl NodesStillRunning) /\
  exists s',
    close_nodegroup reply nm true s = (inr tt, s') /\
    log s' = log s ++ [EvStop ps; EvDelItem nm] /\
    delitem nm (nodegroup_process s) = Some (nodegroup_process s') /\
    ~ In nm (keys (nodegroup_process s')).
Proof.
  intros Hwf Hg. split.
  - intros Hr. now rewrite (close_nodegroup_refused s nm ps Hg Hr).
  - destruct (delitem_Some nm ps _ Hg) as [d' Hd].
    eexists. split; [exact (close_nodegroup_forced s nm ps d' Hg Hd)|].
    simpl. repeat split; [exact Hd|].
    now apply (delitem_removes nm _ _ Hwf Hd).
Qed.

(** C3: [Host.close()] force-closes every NodeGroup of the registry, each
    one by stopping its process and then deleting its entry, and shuts the
    Host's own RPC server down after the last of them; it returns normally
    and the Host then owns no NodeGroup. *)
Theorem close_closes_all_then_server (s : state) :
  close reply s =
    (inr tt,
     {| host_name := host_name s; host_addr := host_addr s;
        nodegroup_process := [];
        log := log s ++ closing_events (nodegroup_process s) ++ [EvServerClose] |}).
Proof.
  destruct s as [hn ha d l]. unfold close, close_all_nodegroups.
  unfold bind at 1. unfold bind at 1. unfold gets at 1. simpl.
  rewrite force_close_loop. unfold RPCServer_close, emit, modify. simpl.
  now rewrite <- app_assoc.
Qed.

(** C4: when the spawn made by [create_nodegroup] raises, the exception
    reaches the caller and the registry is what it was: the requested name
    has no entry. *)
Theorem create_nodegroup_spawn_failure (s : state) (nm ad : string) (e : exn) :
  ~ In nm (keys (nodegroup_process s)) ->
  spawner nm ad (log s) = inl e ->
  exists s',
    create_nodegroup spawner nm ad s = (inl e, s') /\
    nodegroup_process s' = nodegroup_process s /\
    getitem nm (nodegroup_process s') = None /\
    log s' = log s ++ [EvSpawn nm ad].
Proof.
  intros Hfresh Hsp. pose proof Hfresh as Hc. apply contains_false in Hc.
  eexists. split.
  - run. rewrite Hc; simpl. rewrite Hsp. reflexivity.
  - simpl. repeat split. unfold contains in Hc.
    now destruct (getitem nm (nodegroup_process s)).
Qed.

(** C10: when [close_nodegroup(name, force=False)] fails because the
    NodeGroup reports a running Node, the registry is unchanged, the
    NodeGroup is still registered under its name, and the only effect of
    the call is the remote query: no process was stopped, no entry
    deleted. *)
Theorem close_nodegroup_refused_unchanged (s : state) (nm : string)
    (ps : ProcessSpawner) :
  getitem nm (nodegroup_process s) = Some ps ->
  reply (client ps) (log s) = inr true ->
  exists s',
    close_nodegroup reply nm false s = (inl NodesStillRunning, s') /\
    nodegroup_process s' = nodegroup_process s /\
    getitem nm (nodegroup_process s') = Some ps /\
    log s' = log s ++ [EvAnyNodeRunning (client ps)] /\
    (forall ev, In ev (log s') -> ~ In ev (log s) ->
                ev = EvAnyNodeRunning (client ps)).
Proof.
  intros Hg Hr. eexists. split; [exact (close_nodegroup_refused s nm ps Hg Hr)|].
  simpl. repeat split; [exact Hg|].
  intros ev Hin Hold. apply in_app_or in Hin. destruct Hin as [H|[H|[]]].
  - contradiction.
  - now symmetry.
Qed.

End Facts.

Lemma create_nodegroup_twice_witness :
  exists s1,
    create_nodegroup echo_spawner "ng0" "tcp://127.0.0.1:5000"
      (init "host" "tcp://127.0.0.1:4000")
    = (inr ("ng0", "tcp://127.0.0.1:5000"), s1) /\
    nodegroup_process s1 = [("ng0", ng0)] /\
    log s1 = [EvSpawn "ng0" "tcp://127.0.0.1:5000"; EvSetItem "ng0" ng0] /\
    getitem "ng0" (nodegroup_process s1) = Some ng0 /\
    (forall ad2, create_nodegroup echo_spawner "ng0" ad2 s1 = (inl AlreadyExists, s1)) /\
    count_occ string_dec (keys (nodegroup_process s1)) "ng0" = 1.
Proof.
  apply (create_nodegroup_twice echo_spawner
           (init "host" "tcp://127.0.0.1:4000") "ng0" "tcp://127.0.0.1:5000" ng0).
  - constructor.
  - simpl. tauto.
  - reflexivity.
Defined.

Lemma close_nodegroup_force_or_refuse_witness :
  fst (close_nodegroup busy_reply "ng0" false host1) = inl NodesStillRunning /\
  exists s',
    close_nodegroup busy_reply "ng0" true host1 = (inr tt, s') /\
    log s' = log host1 ++ [EvStop ng0; EvDelItem "ng0"] /\
    delitem "ng0" (nodegroup_process host1) = Some (nodegroup_process s') /\
    ~ In "ng0" (keys (nodegroup_process s')).
Proof.
  assert (Hwf : wf (nodegroup_process host1)).
  { repeat constructor. simpl. tauto. }
  destruct (close_nodegroup_force_or_refuse busy_reply host1 "ng0" ng0 Hwf eq_refl)
    as [Hrefuse Hforce].
  split; [exact (Hrefuse eq_refl) | exact Hforce].
Defined.

Lemma create_nodegroup_spawn_failure_witness :
  exists s',
    create_nodegroup failing_spawner "ng1" "tcp://127.0.0.1:5001" host1
    = (inl (RemoteError "SpawnTimeout"), s') /\
    nodegroup_process s' = nodegroup_process host1 /\
    getitem "ng1" (nodegroup_process s') = None /\
    log s' = log host1 ++ [EvSpawn "ng1" "tcp://127.0.0.1:5001"].
Proof.
  apply (create_nodegroup_spawn_failure failing_spawner host1
           "ng1" "tcp://127.0.0.1:5001" (RemoteError "SpawnTimeout")).
  - simpl. intros [H|[]]. discriminate H.
  - reflexivity.
Defined.

Lemma close_nodegroup_refused_unchanged_witness :
  exists s',
    close_nodegroup busy_reply "ng0" false host1 = (inl NodesStillRunning, s') /\
    nodegroup_process s' = nodegroup_process host1 /\
    getitem "ng0" (nodegroup_process s') = Some ng0 /\
    log s' = log host1 ++ [EvAnyNodeRunning (client ng0)] /\
    (forall ev, In ev (log s') -> ~ In ev (log host1) ->
                ev = EvAnyNodeRunning (client ng0)).
Proof.
  apply (close_nodegroup_refused_unchanged busy_reply host1 "ng0" ng0);
    reflexivity.
Defined.

(** Two NodeGroups, closed by [Host.close()] in the order of their creation. *)
Example close_two_nodegroups :
  let s0 := init "host" "tcp://127.0.0.1:4000" in
  let s1 := snd (create_nodegroup echo_spawner "a" "addr_a" s0) in
  let s2 := snd (create_nodegroup echo_spawner "b" "addr_b" s1) in
  let s3 := snd (close busy_reply s2) in
  keys (nodegroup_process s2) = ["a"; "b"] /\
  nodegroup_process s3 = [] /\
  skipn 4 (log s3) =
    [EvStop {| name := "a"; addr := "addr_a";
               client := {| client_name := "a"; client_addr := "addr_a" |} |};
     EvDelItem "a";
     EvStop {| name := "b"; addr := "addr_b";
               client := {| client_name := "b"; client_addr := "addr_b" |} |};
     EvDelItem "b";
     EvServerClose].
Proof. repeat split. Qed.

(** Without [force], an idle NodeGroup is closed as well. *)
Example close_idle_nodegroup :
  close_nodegroup idle_reply "ng0" false host1 =
    (inr tt,
     {| host_name := "host"; host_addr := "tcp://127.0.0.1:4000";
        nodegroup_process := [];
        log := log host1 ++ [EvAnyNodeRunning (client ng0); EvStop ng0;
                             EvDelItem "ng0"] |}).
Proof. reflexivity. Qed.

(** A name that is not registered cannot be closed. *)
Example close_unknown_nodegroup :
  close_nodegroup busy_reply "nope" true host1 = (inl (KeyError "nope"), host1).
Proof. reflexivity. Qed.

End HostFacts.

(** ** The background poller *)

Module PollerFacts.
Import Poller.

Ltac break_hyps :=
  repeat match goal with
         | H : _ /\ _ |- _ => destruct H
         | H : exists _, _ |- _ => destruct H
         | H : False |- _ => destruct H
         | H : true = false |- _ => discriminate H
         | H : false = true |- _ => discriminate H
         | H : L56 = Outside |- _ => discriminate H
         | H : Outside = L56 |- _ => discriminate H
         end.

Ltac invert_heads :=
  repeat match goal with
         | H : _ \/ _ |- _ => destruct H
         | H : _ /\ _ |- _ => destruct H
         | H : exists _, _ |- _ => destruct H
         | H : _ :: _ = _ :: _ |- _ => injection H as ? ?
         | H : Some _ = Some _ |- _ => injection H as ?
         end;
  subst; simpl in *; try contradiction; try discriminate.

Ltac close_goal :=
  simpl in *; break_hyps;
  repeat match goal with
         | |- _ /\ _ => split
         | |- True => exact I
         | |- Forall _ (_ :: _) => constructor
         | |- ?x = ?x => reflexivity
         | |- _ -> _ => intro
         | |- exists _, _ => eexists
         end;
  simpl in *; break_hyps; subst;
  try solve [ assumption | reflexivity | discriminate | tauto | lia
            | intuition (discriminate || congruence || eauto) ].

Section Facts.
Variable Data : Type.
Implicit Types (s : sys Data) (r : reply Data) (a : action Data)
  (l : list (event Data)) (e : event Data).

(** *** The invariant holds in every reachable state *)

Lemma init_inv (stream : nat) (tmo : Z) : inv (@init Data stream tmo).
Proof.
  unfold inv, pc_matches, lock_matches, run_events, finished; simpl.
  close_goal.
Qed.

Lemma run_step_inv r s : inv s -> inv (run_step r s).
Proof.
  destruct s as [st tmo rn lk ps pr pst lv h].
  unfold inv, pc_matches, lock_matches, run_step, run_events, finished, deref;
    simpl.
  intros (Hj & Hp & Hl & Hu & Hq & Hw).
  destruct pr; destruct lk as [[|]|]; simpl in *; break_hyps; try discriminate;
    try (destruct rn); try (destruct (lv st));
    try (destruct (Z.gtb_spec (ev r) 0)); simpl in *.
  all: solve [close_goal].
Qed.

Lemma stop_step_inv s : inv s -> inv (stop_step s).
Proof.
  destruct s as [st tmo rn lk ps pr pst lv h].
  unfold inv, pc_matches, lock_matches, stop_step, run_events, finished; simpl.
  intros (Hj & Hp & Hl & Hu & Hq & Hw).
  destruct pst; destruct lk as [[|]|]; simpl in *; break_hyps; try discriminate.
  all: try solve [close_goal].
  all: destruct pr; simpl in *; try discriminate; solve [close_goal].
Qed.

Lemma wait_step_inv s : inv s -> inv (wait_step s).
Proof.
  destruct s as [st tmo rn lk ps pr pst lv h].
  unfold inv, pc_matches, lock_matches, wait_step, run_events, finished; simpl.
  intros (Hj & Hp & Hl & Hu & Hq & Hw).
  destruct pr; simpl in *; solve [close_goal].
Qed.

Lemma destroy_step_inv (n : nat) s : inv s -> inv (destroy_step n s).
Proof.
  destruct s as [st tmo rn lk ps pr pst lv h].
  unfold inv, pc_matches, lock_matches, destroy_step, run_events, finished;
    simpl.
  intros (Hj & Hp & Hl & Hu & Hq & Hw).
  close_goal.
Qed.

Lemma step_inv a s : inv s -> inv (step a s).
Proof.
  destruct a; simpl;
    [apply run_step_inv | apply stop_step_inv | apply wait_step_inv
    | apply destroy_step_inv].
Qed.

Lemma exec_inv (sched : list (action Data)) : forall s, inv s -> inv (exec sched s).
Proof.
  induction sched as [|a sched IH]; simpl; intros s H; [exact H|].
  apply IH. now apply step_inv.
Qed.

Lemma reachable_inv (stream : nat) (tmo : Z) (sched : list (action Data)) :
  inv (exec sched (init stream tmo)).
Proof. apply exec_inv, init_inv. Qed.

(** *** What no step changes *)

Lemma step_binding a s :
  input_stream (step a s) = input_stream s /\ timeout (step a s) = timeout s.
Proof.
  destruct a; simpl; unfold run_step, stop_step, wait_step, destroy_step, upd.
  - destruct (pc_run s); try destruct (running_lock s);
      try destruct (negb (running s)); try destruct (deref s); simpl; auto.
  - destruct (pc_stop s); try destruct (running_lock s); simpl; auto.
  - destruct (finished s); simpl; auto.
  - simpl; auto.
Qed.

Lemma exec_binding (sched : list (action Data)) :
  forall s, input_stream (exec sched s) = input_stream s /\
            timeout (exec sched s) = timeout s.
Proof.
  induction sched as [|a sched IH]; simpl; intros s; [auto|].
  destruct (IH (step a s)) as [-> ->]. apply step_binding.
Qed.

(** A stream dies only when its owner drops it. *)
Lemma step_live a s (m : nat) :
  live (step a s) m = false -> live s m = false \/ a = Destroy m.
Proof.
  destruct a; simpl; unfold run_step, stop_step, wait_step, destroy_step, upd.
  - destruct (pc_run s); try destruct (running_lock s);
      try destruct (negb (running s)); try destruct (deref s); simpl; auto.
  - destruct (pc_stop s); try destruct (running_lock s); simpl; auto.
  - destruct (finished s); simpl; auto.
  - simpl. destruct (Nat.eqb_spec m stream) as [->|Hne]; auto.
Qed.

Lemma exec_live (sched : list (action Data)) (m : nat) :
  forall s, live (exec sched s) m = false ->
            live s m = false \/ In (Destroy m) sched.
Proof.
  induction sched as [|a sched IH]; simpl; intros s H; [auto|].
  destruct (IH _ H) as [H1|H1]; [|auto].
  destruct (step_live _ _ _ H1) as [H2|H2]; [auto | subst; auto].
Qed.

Lemma deref_destroyed s : deref (destroy_step (input_stream s) s) = None.
Proof. unfold deref, destroy_step. simpl. now rewrite Nat.eqb_refl. Qed.

(** *** Reading the log *)

Lemma all_justified_suffix (tmo : Z) l2 l1 :
  all_justified tmo (l2 ++ l1) -> all_justified tmo l1.
Proof. induction l2 as [|e l2 IH]; simpl; [auto | intros [_ H]; auto]. Qed.

Lemma all_justified_at (tmo : Z) l2 e l1 :
  all_justified tmo (l2 ++ e :: l1) -> justified tmo e l1.
Proof. intros H. apply all_justified_suffix in H. exact (proj1 H). Qed.

(** The event right after [e], if there is one. *)
Lemma all_justified_next (tmo : Z) l2 e2 e l1 :
  all_justified tmo ((l2 ++ [e2]) ++ e :: l1) -> justified tmo e2 (e :: l1).
Proof. rewrite <- app_assoc. simpl. apply all_justified_at. Qed.

Lemma nothing_after_return (tmo : Z) l2 l1 :
  all_justified tmo (l2 ++ EvReturn :: l1) -> l2 = [].
Proof.
  destruct l2 as [|e0 l0] using rev_ind; [reflexivity|].
  intros H. apply all_justified_next in H.
  destruct e0; simpl in H; invert_heads.
Qed.

Lemma only_return_after_failed_test (tmo : Z) l2 e l1 :
  (exists h, e = EvTestRunning h false \/ e = EvTestStream h false) ->
  all_justified tmo (l2 ++ e :: l1) -> l2 = [] \/ l2 = [EvReturn].
Proof.
  intros He. destruct l2 as [|e2 l0 _] using rev_ind; [auto|].
  intros H. right. pose proof (all_justified_next _ _ _ _ _ H) as H2.
  assert (e2 = EvReturn) as ->.
  { destruct He as [h [-> | ->]]; destruct e2; simpl in H2; invert_heads;
      reflexivity. }
  rewrite <- app_assoc in H. simpl in H.
  now rewrite (nothing_after_return _ _ _ H).
Qed.

(** A failed test is never the last event: the return is logged with it. *)
Lemma failed_test_not_last s e rest :
  (exists h, e = EvTestRunning h false \/ e = EvTestStream h false) ->
  pc_matches s -> run_events s = e :: rest -> False.
Proof.
  unfold pc_matches. intros [h He] Hp Hr. rewrite Hr in Hp.
  destruct (pc_run s); destruct He as [-> | ->]; invert_heads.
Qed.

Lemma returned_when_logged s rest :
  pc_matches s -> run_events s = EvReturn :: rest -> pc_run s = Returned.
Proof.
  unfold pc_matches. intros Hp Hr. rewrite Hr in Hp.
  destruct (pc_run s); invert_heads; reflexivity.
Qed.

(** C5: in every execution of the poller, under any schedule of the other
    threads: the poller keeps the one stream it was given, by a reference
    that does not keep the stream alive; the running flag and the existence
    of the stream are tested with the lock held; a failed test is followed
    by the return of [run()] and nothing else; [poll] is called with the
    timeout right after both tests passed; [recv] is called right after a
    poll with a strictly positive result; and what is dispatched is the
    (position, data) just received. *)
Theorem run_loop_discipline (stream : nat) (tmo : Z)
    (sched : list (action Data)) :
  let s := exec sched (init stream tmo) in
  (input_stream s = stream /\
   deref (destroy_step (input_stream s) s) = None /\
   (forall m, live s m = false -> In (Destroy m) sched)) /\
  (forall l2 l1 h v,
      run_events s = l2 ++ EvTestRunning h v :: l1 -> h = Some RunThread) /\
  (forall l2 l1 h v,
      run_events s = l2 ++ EvTestStream h v :: l1 -> h = Some RunThread) /\
  (forall l2 l1 h,
      run_events s = l2 ++ EvTestRunning h false :: l1 ->
      l2 = [EvReturn] /\ pc_run s = Returned) /\
  (forall l2 l1 h,
      run_events s = l2 ++ EvTestStream h false :: l1 ->
      l2 = [EvReturn] /\ pc_run s = Returned) /\
  (forall l2 l1 t n,
      run_events s = l2 ++ EvPoll t n :: l1 ->
      t = tmo /\
      exists l0, l1 = EvTestStream (Some RunThread) true
                        :: EvTestRunning (Some RunThread) true :: l0) /\
  (forall l2 l1 p d,
      run_events s = l2 ++ EvRecv p d :: l1 ->
      exists t n l0, l1 = EvPoll t n :: l0 /\ (n > 0)%Z) /\
  (forall l2 l1 p d,
      run_events s = l2 ++ EvDispatch p d :: l1 ->
      exists p' l0, p = Some p' /\ l1 = EvRecv p' d :: l0).
Proof.
  intros s.
  destruct (reachable_inv stream tmo sched) as (Hj & Hp & _).
  fold s in Hj, Hp.
  destruct (exec_binding sched (init stream tmo)) as [Hb Ht].
  fold s in Hb, Ht. simpl in Hb, Ht. rewrite Ht in Hj.
  assert (Hexit : forall l2 e l1,
             (exists h, e = EvTestRunning h false \/ e = EvTestStream h false) ->
             run_events s = l2 ++ e :: l1 ->
             l2 = [EvReturn] /\ pc_run s = Returned).
  { intros l2 e l1 He Hr. pose proof Hj as Hj'. rewrite Hr in Hj'.
    destruct (only_return_after_failed_test _ _ _ _ He Hj') as [-> | ->].
    - exfalso. exact (failed_test_not_last s e l1 He Hp Hr).
    - split; [reflexivity|]. exact (returned_when_logged s _ Hp Hr). }
  repeat split.
  - exact Hb.
  - apply deref_destroyed.
  - intros m Hm. destruct (exec_live sched m _ Hm) as [H|H]; [discriminate H | exact H].
  - intros l2 l1 h v Hr. rewrite Hr in Hj.
    apply all_justified_at in Hj. exact (proj1 Hj).
  - intros l2 l1 h v Hr. rewrite Hr in Hj.
    apply all_justified_at in Hj. exact (proj1 Hj).
  - eapply Hexit; [|eassumption]. eexists; left; reflexivity.
  - eapply Hexit; [|eassumption]. eexists; left; reflexivity.
  - eapply Hexit; [|eassumption]. eexists; right; reflexivity.
  - eapply Hexit; [|eassumption]. eexists; right; reflexivity.
  - rewrite H in Hj. apply all_justified_at in Hj. exact (proj1 Hj).
  - rewrite H in Hj. apply all_justified_suffix in Hj.
    destruct Hj as [[_ [rest ->]] [[_ [rest' ->]] _]]. now exists rest'.
  - intros l2 l1 p d Hr. rewrite Hr in Hj. apply all_justified_at in Hj.
    exact Hj.
  - intros l2 l1 p d Hr. rewrite Hr in Hj. apply all_justified_at in Hj.
    exact Hj.
Qed.

(** *** Stopping *)

Lemma step_cleared (base : nat) a s : cleared base s -> cleared base (step a s).
Proof.
  destruct s as [st tmo rn lk ps pr pst lv h].
  unfold cleared, dispatches, in_loop. simpl. intros (Hr & Hl & Hd). subst rn.
  destruct a; simpl;
    unfold run_step, stop_step, wait_step, destroy_step, finished, deref; simpl.
  - destruct pr; try discriminate; try destruct lk; try destruct (lv st);
      try destruct (ev r >? 0)%Z; simpl in *; repeat split; auto; lia.
  - destruct pst; try destruct lk; simpl; repeat split; auto.
  - destruct pr; simpl; repeat split; auto.
  - repeat split; auto.
Qed.

Lemma exec_cleared (base : nat) (sched : list (action Data)) :
  forall s, cleared base s -> cleared base (exec sched s).
Proof.
  induction sched as [|a sched IH]; simpl; intros s H; [exact H|].
  apply IH. now apply step_cleared.
Qed.

Lemma run_step_draining r s :
  draining s ->
  draining (run_step r s) /\
  steps_left (pc_run (run_step r s)) <= Nat.pred (steps_left (pc_run s)).
Proof.
  destruct s as [st tmo rn lk ps pr pst lv h].
  unfold draining, in_loop, run_step, deref. simpl.
  intros (Hr & Hs & Hl & Hp & Hk). subst rn pst.
  destruct pr; try discriminate; try congruence; simpl in Hk; subst lk; simpl;
    try destruct (lv st); try destruct (ev r >? 0)%Z; simpl;
    repeat split; auto; try discriminate; lia.
Qed.

Lemma exec_draining (replies : list (reply Data)) :
  forall s, draining s ->
    draining (exec (map (@Run Data) replies) s) /\
    steps_left (pc_run (exec (map (@Run Data) replies) s))
      <= steps_left (pc_run s) - List.length replies.
Proof.
  induction replies as [|r replies IH]; simpl; intros s H.
  - split; [exact H | lia].
  - destruct (run_step_draining r s H) as [H1 H2].
    destruct (IH _ H1) as [H3 H4]. split; [exact H3 | lia].
Qed.

Lemma drained_finished s :
  draining s -> steps_left (pc_run s) = 0 -> finished s = true.
Proof.
  unfold draining, in_loop, finished. intros (_ & _ & Hl & Hp & _).
  destruct (pc_run s); simpl; intros H; try discriminate; try reflexivity.
  now elim Hp.
Qed.

Lemma quiet_after_wait_split l2 l1 :
  quiet_after_wait (l2 ++ EvWaitReturn :: l1) ->
  forall e, In e l2 -> is_dispatch e = false.
Proof.
  induction l2 as [|e2 l2 IH]; simpl; intros H e Hin; [contradiction|].
  destruct H as [Hd Hq]. destruct Hin as [<-|Hin]; [|now apply IH].
  destruct (is_dispatch e2); [|reflexivity].
  exfalso. apply Hd; [reflexivity|]. apply in_or_app. right. now left.
Qed.

(** What holds of [stop()]: the flag is written and read by the holder of
    the one lock; after [wait()] has returned the thread has finished and
    nothing more is dispatched; and once [stop()] has cleared the flag of a
    poller that has entered its loop, the flag stays cleared, the loop
    returns at its next test of the flag, which it reaches within five of
    its own steps, and at most the message in flight is still dispatched. *)
Theorem stop_is_cooperative (stream : nat) (tmo : Z)
    (sched : list (action Data)) :
  let s := exec sched (init stream tmo) in
  (forall h by_ v, In (EvSetRunning h by_ v) (history s) -> h = Some by_) /\
  (forall h v, In (EvTestRunning h v) (history s) -> h = Some RunThread) /\
  (forall l2 l1,
      history s = l2 ++ EvWaitReturn :: l1 ->
      finished s = true /\ forall e, In e l2 -> is_dispatch e = false) /\
  (pc_stop s = L56 -> in_loop s = true ->
   let s1 := stop_step s in
   running s1 = false /\
   history s1 =
     EvStopReturn :: EvSetRunning (Some Caller) Caller false :: history s /\
   (forall sched',
       let s2 := exec sched' s1 in
       running s2 = false /\
       dispatches s2 <= dispatches s1 + 1 /\
       (pc_run s2 = L40 -> forall r, pc_run (run_step r s2) = Returned)) /\
   (forall replies,
       5 <= List.length replies ->
       finished (exec (map (@Run Data) replies) s1) = true)).
Proof.
  intros s.
  destruct (reachable_inv stream tmo sched) as (_ & _ & Hl & Hu & Hq & Hw).
  fold s in Hl, Hu, Hq, Hw. rewrite Forall_forall in Hu.
  split; [|split; [|split]].
  - intros h by_ v Hin. exact (Hu _ Hin).
  - intros h v Hin. exact (Hu _ Hin).
  - intros l2 l1 Hh. split.
    + apply Hw. rewrite Hh. apply in_or_app. right. now left.
    + rewrite Hh in Hq. now apply quiet_after_wait_split with (l1 := l1).
  - intros Hs Hin s1.
    assert (Hlock : running_lock s = Some Caller /\ holds_lock (pc_run s) = false).
    { unfold lock_matches in Hl. rewrite Hs in Hl.
      destruct (running_lock s) as [[|]|]; destruct Hl as [Hh Ho];
        try discriminate Ho. auto. }
    destruct Hlock as [Hlk Hh].
    assert (Hs1 : s1 = upd s false None (_pos s) (pc_run s) Outside
                     [EvStopReturn; EvSetRunning (Some Caller) Caller false]).
    { unfold s1, stop_step. now rewrite Hs, Hlk. }
    assert (Hc : cleared (dispatches s1) s1).
    { rewrite Hs1. unfold cleared, dispatches, in_loop in *. simpl.
      repeat split; auto. destruct (pc_run s); simpl; lia. }
    assert (Hd : draining s1).
    { rewrite Hs1. unfold draining, in_loop in *. simpl.
      rewrite Hh. repeat split; auto. intros E. now rewrite E in Hh. }
    split; [now rewrite Hs1|]. split; [now rewrite Hs1|]. split.
    + intros sched' s2.
      destruct (exec_cleared (dispatches s1) sched' s1 Hc) as (Hr2 & _ & Hd2).
      fold s2 in Hr2, Hd2.
      split; [exact Hr2|]. split; [lia|].
      intros Hpc r. unfold run_step. now rewrite Hpc, Hr2.
    + intros replies Hlen. destruct (exec_draining replies s1 Hd) as [Hd' Hn].
      apply drained_finished; [exact Hd'|].
      assert (steps_left (pc_run s1) <= 5)
        by (destruct (pc_run s1); simpl; lia).
      lia.
Qed.

(** *** A [stop()] that returns before [run()] has begun *)

Lemma step_unstopped a s :
  is_run_or_wait a = true -> unstopped s -> unstopped (step a s).
Proof.
  destruct s as [st tmo rn lk ps pr pst lv h].
  unfold unstopped, finished, in_loop. simpl.
  intros Ha (Hf & Hlive & Hw & Hrun & Htest).
  destruct a; simpl in Ha; try discriminate; simpl;
    unfold run_step, wait_step, finished, deref; simpl; rewrite ?Hlive.
  - destruct pr; try discriminate; try destruct lk;
      try (rewrite (Hrun eq_refl)); try destruct (ev r >? 0)%Z; simpl;
      repeat split; auto; try discriminate;
      try (intros [E|[]]; discriminate E);
      try (intros [E|H]; [discriminate E | now apply Hw]);
      try (intros h0 v0 [E|H]; [now inversion E | now apply (Htest h0 v0)]);
      try (intros h0 v0 [E|H]; [discriminate E | now apply (Htest h0 v0)]).
  - rewrite Hf. simpl. repeat split; auto.
Qed.

Lemma exec_unstopped (sched : list (action Data)) : forall s,
  forallb (@is_run_or_wait Data) sched = true ->
  unstopped s -> unstopped (exec sched s).
Proof.
  induction sched as [|a sched IH]; simpl; intros s H Hs; [exact Hs|].
  apply andb_prop in H. destruct H as [Ha H].
  apply IH; [exact H | now apply step_unstopped].
Qed.

(** C6, at a [stop()] that is called right after the thread was started
    and returns before [run()] has taken its first step.  The call clears
    the flag under the lock and returns, but line 36 sets the flag again:
    whatever [run()] and a caller of [wait()] do from then on, the loop
    never finds the flag cleared, [run()] does not finish and [wait()]
    does not return. *)
Theorem stop_before_run_never_ends (stream : nat) (tmo : Z)
    (sched : list (action Data)) :
  forallb (@is_run_or_wait Data) sched = true ->
  let s0 := exec [Stop; Stop] (init stream tmo) in
  let s := exec sched s0 in
  history s0 = [EvStopReturn; EvSetRunning (Some Caller) Caller false] /\
  running s0 = false /\
  finished s = false /\
  ~ In EvWaitReturn (history s) /\
  (in_loop s = true -> running s = true) /\
  (forall h v, In (EvTestRunning h v) (history s) -> v = true).
Proof.
  intros Hsched s0 s. split; [reflexivity|]. split; [reflexivity|].
  assert (H0 : unstopped s0).
  { unfold unstopped, s0. simpl. repeat split; try discriminate.
    - intros [E|[E|[]]]; discriminate E.
    - intros h v [E|[E|[]]]; discriminate E. }
  destruct (exec_unstopped sched s0 Hsched H0) as (Hf & _ & Hw & Hr & Ht).
  repeat split; assumption.
Qed.

End Facts.

(** *** Concrete runs *)

Example one_round_events :
  run_events (exec one_round (init 0 200)) =
    [EvDispatch (Some 500%Z) (Some 7%Z);
     EvRecv 500 (Some 7%Z);
     EvPoll 200 12;
     EvTestStream (Some RunThread) true;
     EvTestRunning (Some RunThread) true;
     EvSetRunning (Some RunThread) RunThread true].
Proof. reflexivity. Qed.

(** A poll that times out is followed by the next round, not by [recv]. *)
Example timed_out_round :
  run_events (exec (repeat (Run no_message) 9) (init 0 200)) =
    [EvTestStream (Some RunThread) true;
     EvTestRunning (Some RunThread) true;
     EvPoll 200 0;
     EvTestStream (Some RunThread) true;
     EvTestRunning (Some RunThread) true;
     EvSetRunning (Some RunThread) RunThread true].
Proof. reflexivity. Qed.

(** The stream is destroyed while the poller is between two rounds. *)
Example lost_stream :
  let s := exec (one_round ++ [Destroy 0; Run a_message; Run a_message;
                               Run a_message]) (init 0 200) in
  pc_run s = Returned /\
  firstn 2 (run_events s) = [EvReturn; EvTestStream (Some RunThread) false].
Proof. split; reflexivity. Qed.

(** The stream is destroyed between the test under the lock and [poll]. *)
Example stream_lost_before_poll :
  let s := exec (repeat (Run a_message) 5 ++ [Destroy 0; Run a_message])
             (init 0 200) in
  pc_run s = Raised (NoneType_has_no "poll").
Proof. reflexivity. Qed.

Lemma run_loop_discipline_witness :
  let s := exec one_round (init 0 200) in
  run_events s =
    [EvDispatch (Some 500%Z) (Some 7%Z); EvRecv 500 (Some 7%Z)]
    ++ EvPoll 200 12
    :: [EvTestStream (Some RunThread) true;
        EvTestRunning (Some RunThread) true;
        EvSetRunning (Some RunThread) RunThread true] /\
  (200%Z = 200%Z /\
   exists l0 : list (event Z),
     [EvTestStream (Some RunThread) true;
      EvTestRunning (Some RunThread) true;
      EvSetRunning (Some RunThread) RunThread true]
     = EvTestStream (Some RunThread) true
         :: EvTestRunning (Some RunThread) true :: l0).
Proof.
  split; [reflexivity|].
  destruct (run_loop_discipline Z 0 200 one_round)
    as (_ & _ & _ & _ & _ & Hpoll & _).
  apply (Hpoll [EvDispatch (Some 500%Z) (Some 7%Z); EvRecv 500 (Some 7%Z)]
               _ 200%Z 12%Z).
  reflexivity.
Defined.


(** [stop()] returns while the poller waits in [poll]: the message in
    flight is dispatched, then the loop returns. *)
Example stop_during_poll_end :
  let s := exec (stop_during_poll ++ Stop :: repeat (Run a_message) 5)
             (init 0 200) in
  pc_run s = Returned /\ dispatches s = 1 /\ running s = false /\
  firstn 3 (run_events s) =
    [EvReturn; EvTestRunning (Some RunThread) false;
     EvDispatch (Some 500%Z) (Some 7%Z)].
Proof. repeat split. Qed.

Lemma stop_is_cooperative_witness :
  let s := exec stop_during_poll (init 0 200) in
  pc_stop s = L56 /\ in_loop s = true /\
  running (stop_step s) = false /\
  finished (exec (map (@Run Z) (repeat a_message 5)) (stop_step s)) = true.
Proof.
  destruct (stop_is_cooperative Z 0 200 stop_during_poll) as (_ & _ & _ & H).
  destruct (H eq_refl eq_refl) as (Hr & _ & _ & Hf).
  split; [reflexivity|]. split; [reflexivity|].
  split; [exact Hr | apply Hf; simpl; apply le_n].
Defined.

(** A [stop()] that returns before [run()] has executed line 36 is
    overwritten: the flag is set again and the loop goes on dispatching. *)
Example early_stop_is_overwritten :
  let s := exec ([Stop; Stop] ++ one_round) (init 0 200) in
  last (history s) EvReturn = EvSetRunning (Some Caller) Caller false /\
  running s = true /\ dispatches s = 1 /\ finished s = false.
Proof. repeat split. Qed.

(** Twenty steps of [run()] after the early [stop()], with a message
    waiting at every poll, and two attempts of [wait()]. *)
Lemma stop_before_run_never_ends_witness :
  let s := exec (repeat (Run a_message) 20 ++ [Wait; Wait])
             (exec [Stop; Stop] (init 0 200)) in
  finished s = false /\ ~ In EvWaitReturn (history s) /\
  running s = true /\ dispatches s = 3%nat.
Proof.
  destruct (stop_before_run_never_ends Z 0 200
              (repeat (Run a_message) 20 ++ [Wait; Wait]) eq_refl)
    as (_ & _ & Hf & Hw & Hr & _).
  split; [exact Hf|]. split; [exact Hw|]. split; [exact (Hr eq_refl) | reflexivity].
Defined.

End PollerFacts.

(** ** Converter and splitter *)

Module ToolsFacts.
Import Eff PyDict PyDictFacts Tools.
Local Open Scope Z_scope.

Lemma fold_min_nonneg (r : list Z) : forall x,
  0 <= fold_left Z.min r x <-> 0 <= x /\ Forall (fun c => 0 <= c) r.
Proof.
  induction r as [|c r IH]; simpl; intros x.
  - split; [intros H; split; [exact H | constructor] | tauto].
  - rewrite IH, Z.min_glb_iff. split.
    + intros [[Hx Hc] Hr]. split; [exact Hx | now constructor].
    + intros [Hx Hr]. inversion Hr; subst. tauto.
Qed.

Lemma fold_max_below (n : Z) (r : list Z) : forall x,
  fold_left Z.max r x < n <-> x < n /\ Forall (fun c => c < n) r.
Proof.
  induction r as [|c r IH]; simpl; intros x.
  - split; [intros H; split; [exact H | constructor] | tauto].
  - rewrite IH, Z.max_lub_lt_iff. split.
    + intros [[Hx Hc] Hr]. split; [exact Hx | now constructor].
    + intros [Hx Hr]. inversion Hr; subst. tauto.
Qed.

Lemma valid_group_cons (n x : Z) (r : list Z) :
  valid_group n (x :: r) <->
  (0 <= x /\ Forall (fun c => 0 <= c) r) /\ (x < n /\ Forall (fun c => c < n) r).
Proof.
  unfold valid_group. rewrite Forall_cons_iff.
  assert (H : Forall (fun c => 0 <= c < n) r <->
              Forall (fun c => 0 <= c) r /\ Forall (fun c => c < n) r).
  { rewrite !Forall_forall. split.
    - intros H. split; intros c Hc; apply H in Hc; lia.
    - intros [H1 H2] c Hc. split; [now apply H1 | now apply H2]. }
  rewrite H. split.
  - intros [_ [[Hx1 Hx2] [H1 H2]]]. tauto.
  - intros [[Hx1 H1] [Hx2 H2]]. split; [discriminate | tauto].
Qed.

Section Facts.
Variable Sample : Type.
Variable Rate : Type.
Implicit Types (n : ChannelSplitter Rate) (p : params Rate).

(** The assertion passes on a valid group and raises on any other; the
    node is not touched. *)
Lemma check_channels_valid (chans : list Z) (nn : Z) n :
  valid_group nn chans -> check_channels chans nn n = (inr tt, n).
Proof.
  destruct chans as [|x r]; [intros [H _]; now elim H|].
  rewrite valid_group_cons, <- fold_min_nonneg, <- fold_max_below.
  intros [Hlo Hhi].
  unfold check_channels, py_min, py_max, lift, assert_, bind, ret. simpl.
  destruct (Z.geb_spec (fold_left Z.min r x) 0); [|lia]. simpl.
  destruct (Z.ltb_spec (fold_left Z.max r x) nn); [reflexivity | lia].
Qed.

Lemma check_channels_invalid (chans : list Z) (nn : Z) n :
  ~ valid_group nn chans -> exists e, check_channels chans nn n = (inl e, n).
Proof.
  destruct chans as [|x r]; [intros _; now eexists|].
  rewrite valid_group_cons, <- fold_min_nonneg, <- fold_max_below.
  intros H.
  unfold check_channels, py_min, py_max, lift, assert_, bind, ret, raise. simpl.
  destruct (Z.geb_spec (fold_left Z.min r x) 0); simpl; [|now eexists].
  destruct (Z.ltb_spec (fold_left Z.max r x) nn); [lia | now eexists].
Qed.

Lemma valid_group_dec (nn : Z) (chans : list Z) :
  {valid_group nn chans} + {~ valid_group nn chans}.
Proof.
  unfold valid_group. destruct chans as [|x r].
  - right. intros [H _]. now apply H.
  - destruct (Forall_dec (fun c => 0 <= c < nn)
                (fun c => ltac:(destruct (Z_le_dec 0 c), (Z_lt_dec c nn);
                                [left | right | right | right]; lia))
                (x :: r)) as [H|H].
    + left. split; [discriminate | exact H].
    + right. tauto.
Qed.

(** *** [after_input_connect] *)

(** The loop over the channel groups, started with the outputs derived so
    far: it derives one output after the other, or stops at the first
    group that does not pass the assertion. *)
Lemma derive_loop p (taxis : Z) (oc : dict (list Z)) : forall n,
  (forall k, In k (keys oc) -> ~ In k (keys (outputs n))) ->
  wf oc ->
  (Forall (fun kc => valid_group (nb_channel p) (snd kc)) oc /\
   for_each oc (fun '(k, chans) =>
       (check_channels chans (nb_channel p) ;;;
        o <- gets (@outputs Rate) ;;
        set_outputs (setitem k {| spec := make_spec p taxis chans |} o))%eff) n
   = (inr tt, with_outputs (outputs n ++ map (derived_output p taxis) oc) n))
  \/
  (Exists (fun kc => ~ valid_group (nb_channel p) (snd kc)) oc /\
   exists e n',
     for_each oc (fun '(k, chans) =>
       (check_channels chans (nb_channel p) ;;;
        o <- gets (@outputs Rate) ;;
        set_outputs (setitem k {| spec := make_spec p taxis chans |} o))%eff) n
     = (inl e, n')).
Proof.
  induction oc as [|[k chans] oc IH]; intros n Hfresh Hwf.
  - left. split; [constructor|]. simpl. unfold ret, with_outputs.
    rewrite app_nil_r. now destruct n.
  - inversion Hwf as [|? ? Hk Hwf']; subst.
    destruct (valid_group_dec (nb_channel p) chans) as [Hv|Hv].
    + set (n1 := with_outputs
                   (outputs n ++ [(k, {| spec := make_spec p taxis chans |})]) n).
      assert (Hstep : forall rest : M (ChannelSplitter Rate) unit,
                 bind (check_channels chans (nb_channel p) ;;;
                       o <- gets (@outputs Rate) ;;
                       set_outputs
                         (setitem k {| spec := make_spec p taxis chans |} o))%eff
                      (fun _ => rest) n = rest n1).
      { intros rest. unfold bind.
        rewrite (check_channels_valid chans (nb_channel p) n Hv).
        unfold gets, set_outputs, modify.
        rewrite setitem_fresh by (apply Hfresh; now left). reflexivity. }
      destruct (IH n1) as [[Hall Heq]|[Hex (e & n' & Heq)]].
      * intros k' Hk' Hin. subst n1. simpl in Hin. rewrite keys_app in Hin.
        apply in_app_or in Hin. destruct Hin as [Hin|[<-|[]]].
        -- apply (Hfresh k'); [now right | exact Hin].
        -- contradiction.
      * exact Hwf'.
      * left. split; [now constructor|].
        transitivity (for_each oc (fun '(k, chans) =>
            (check_channels chans (nb_channel p) ;;;
             o <- gets (@outputs Rate) ;;
             set_outputs (setitem k {| spec := make_spec p taxis chans |} o))%eff) n1).
        { apply (Hstep (for_each oc _)). }
        rewrite Heq. subst n1.
        unfold with_outputs. simpl. rewrite <- app_assoc. reflexivity.
      * right. split; [now apply Exists_cons_tl|]. exists e, n'.
        rewrite <- Heq. apply (Hstep (for_each oc _)).
    + right. split; [now apply Exists_cons_hd|].
      destruct (check_channels_invalid chans (nb_channel p) n Hv) as [e He].
      exists e, n. simpl. unfold bind at 1. unfold bind at 1. now rewrite He.
Qed.

Lemma keys_derived p (taxis : Z) (oc : dict (list Z)) :
  keys (map (derived_output p taxis) oc) = keys oc.
Proof. unfold keys. rewrite map_map. now apply map_ext. Qed.


(** *** [ThreadSplitter.process_data] on chunks with time along axis 0 *)

Variable shared_slice : Z -> option Z -> exn + ndarray Sample.

Lemma axis_indices_in_range (m : nat) (chans : list Z) :
  Forall (fun c => 0 <= c < Z.of_nat m) chans ->
  axis_indices m chans = inr (map Z.to_nat chans).
Proof.
  induction chans as [|c chans IH]; simpl; intros H; [reflexivity|].
  inversion H as [|? ? Hc Hr]; subst. unfold axis_index.
  destruct (Z.leb_spec 0 c); [|lia].
  destruct (Z.ltb_spec c (Z.of_nat m)); [|lia]. simpl.
  now rewrite IH.
Qed.

Lemma take_columns_in_range (a : ndarray Sample) (chans : list Z) :
  Forall (fun c => 0 <= c < Z.of_nat (ncols a)) chans ->
  take_columns a chans = inr (columns a chans).
Proof.
  intros H. unfold take_columns. now rewrite axis_indices_in_range.
Qed.

(** An index past the last column is an [IndexError]. *)
Lemma take_columns_out_of_range (a : ndarray Sample) (chans : list Z) (c : Z) :
  In c chans -> Z.of_nat (ncols a) <= c ->
  exists e, take_columns a chans = inl e.
Proof.
  intros Hin Hc. unfold take_columns.
  assert (H : exists e, axis_indices (ncols a) chans = inl e).
  { induction chans as [|c' chans IH]; [contradiction|]. simpl.
    destruct Hin as [->|Hin].
    - unfold axis_index.
      destruct (Z.ltb_spec c (Z.of_nat (ncols a))); [lia|].
      rewrite andb_false_r.
      destruct (Z.ltb_spec c 0); [lia|]. rewrite andb_false_r. now eexists.
    - destruct (axis_index (ncols a) c'); [|now eexists].
      destruct (IH Hin) as [e ->]. now eexists. }
  destruct H as [e ->]. now eexists.
Qed.

Lemma nth_error_pick (r : list Sample) (js : list nat) (i j : nat) :
  Forall (fun j' => (j' < List.length r)%nat) js ->
  nth_error js i = Some j ->
  nth_error (pick r js) i = nth_error r j.
Proof.
  revert i. induction js as [|j0 js IH]; intros i Hr Hi.
  - destruct i; discriminate.
  - inversion Hr as [|? ? Hj0 Hr']; subst. unfold pick. simpl.
    destruct (nth_error r j0) as [x|] eqn:E.
    + destruct i; simpl in *.
      * injection Hi as <-. now symmetry.
      * now apply IH.
    + apply nth_error_None in E. lia.
Qed.

(** With time along axis 0, channel [i] of the selected columns is channel
    [chans[i]] of the chunk. *)
Lemma columns_channel (a : ndarray Sample) (chans : list Z) (i : nat) (c : Z) :
  well_shaped a ->
  Forall (fun c => 0 <= c < Z.of_nat (ncols a)) chans ->
  nth_error chans i = Some c ->
  channel 0 (columns a chans) i = channel 0 a (Z.to_nat c) /\
  channel 0 a (Z.to_nat c) = Some (pick_column (Z.to_nat c) (rows a)).
Proof.
  intros Hw Hr Hi. unfold channel. simpl.
  assert (Hc : 0 <= c < Z.of_nat (ncols a)).
  { rewrite Forall_forall in Hr. apply Hr. eapply nth_error_In; eassumption. }
  assert (Hlt : (i < List.length chans)%nat)
    by (apply nth_error_Some; congruence).
  destruct (Nat.ltb_spec i (List.length chans)); [|lia].
  destruct (Nat.ltb_spec (Z.to_nat c) (ncols a)); [|lia].
  split; [|reflexivity]. f_equal. unfold pick_column.
  rewrite !flat_map_concat_map, map_map. f_equal.
  apply map_ext_in. intros r Hin.
  unfold well_shaped in Hw. rewrite Forall_forall in Hw.
  change (pick (pick r (map Z.to_nat chans)) [i])
    with (match nth_error (pick r (map Z.to_nat chans)) i with
          | Some x => [x] | None => [] end ++ []).
  change (pick r [Z.to_nat c])
    with (match nth_error r (Z.to_nat c) with
          | Some x => [x] | None => [] end ++ []).
  rewrite (nth_error_pick r (map Z.to_nat chans) i (Z.to_nat c)).
  - reflexivity.
  - rewrite Forall_map. rewrite (Hw r Hin).
    eapply Forall_impl; [|exact Hr]. simpl. intros; lia.
  - now rewrite nth_error_map, Hi.
Qed.

Lemma columns_route_channels (a : ndarray Sample) (chans : list Z) :
  well_shaped a ->
  Forall (fun c => 0 <= c < Z.of_nat (ncols a)) chans ->
  routes_channels 0 0 a chans (columns a chans).
Proof.
  intros Hw Hr. split.
  - intros i c Hi. now apply columns_channel.
  - unfold channel. simpl. now rewrite Nat.ltb_irrefl.
Qed.

(** The loop of [process_data]: one [send] per group, in the order of the
    groups, each with the position of the chunk. *)
Lemma splitter_sends (t : ThreadSplitter Rate) (pos : Z) (a : ndarray Sample) :
  forall (oc : dict (list Z)) (l : list (event Sample)),
    (forall k, In k (keys oc) -> In k (keys (ts_outputs_stream t))) ->
    Forall (fun kc => Forall (fun c => 0 <= c < Z.of_nat (ncols a)) (snd kc)) oc ->
    for_each oc (fun '(k, chans) =>
      match getitem k (ts_outputs_stream t) with
      | None => raise (KeyError k)
      | Some _ =>
          (sub <- lift (take_columns a chans) ;; send k pos (Some sub))%eff
      end) l
    = (inr tt,
       l ++ map (fun kc => EvSend (fst kc) pos (Some (columns a (snd kc)))) oc).
Proof.
  induction oc as [|[k chans] oc IH]; intros l Hk Hr; simpl.
  - unfold ret. now rewrite app_nil_r.
  - inversion Hr as [|? ? Hc Hr']; subst. simpl in Hc.
    destruct (getitem_In k (ts_outputs_stream t)) as [o Ho];
      [apply Hk; now left|].
    unfold bind at 1. rewrite Ho. unfold bind at 1.
    rewrite (take_columns_in_range a chans Hc). unfold lift, ret, send, modify.
    rewrite IH; [|intros k' Hk'; apply Hk; now right | exact Hr'].
    now rewrite <- app_assoc.
Qed.

(** A chunk that came with its data. *)
Lemma splitter_routes_columns (t : ThreadSplitter Rate) (pos : Z)
    (a : ndarray Sample) (l : list (event Sample)) :
  (forall k, In k (keys (ts_output_channels t)) ->
             In k (keys (ts_outputs_stream t))) ->
  Forall (fun kc => Forall (fun c => 0 <= c < Z.of_nat (ncols a)) (snd kc))
    (ts_output_channels t) ->
  ThreadSplitter_process_data shared_slice t pos (Some a) l
  = (inr tt,
     l ++ map (fun kc => EvSend (fst kc) pos (Some (columns a (snd kc))))
            (ts_output_channels t)).
Proof.
  intros Hk Hr. unfold ThreadSplitter_process_data. unfold bind at 1.
  unfold ret at 1. now apply splitter_sends.
Qed.

(** A chunk announced through shared memory: the splitter first fetches
    the slice, then routes it like any other chunk. *)
Lemma splitter_fetches_shared_slice (t : ThreadSplitter Rate) (pos : Z)
    (inp : InputStream Rate) (a : ndarray Sample) (l : list (event Sample)) :
  ts_input_stream t = Some inp ->
  shared_slice pos None = inr a ->
  (forall k, In k (keys (ts_output_channels t)) ->
             In k (keys (ts_outputs_stream t))) ->
  Forall (fun kc => Forall (fun c => 0 <= c < Z.of_nat (ncols a)) (snd kc))
    (ts_output_channels t) ->
  ThreadSplitter_process_data shared_slice t pos None l
  = (inr tt,
     (l ++ [EvGetArraySlice pos None])
       ++ map (fun kc => EvSend (fst kc) pos (Some (columns a (snd kc))))
            (ts_output_channels t)).
Proof.
  intros Hi Hs Hk Hr. unfold ThreadSplitter_process_data. unfold bind at 1.
  rewrite Hi. unfold get_array_slice, bind at 1, modify at 1, lift.
  rewrite Hs. unfold ret at 1. now apply splitter_sends.
Qed.

(** *** [ThreadStreamConverter.process_data] *)

(** A message that carries no data is never completed from shared memory
    by the converter: either the call raises and nothing is sent, or
    [(pos, None)] itself is sent downstream; no slice is fetched in
    either case. *)
Lemma converter_outcomes (t : ThreadStreamConverter Rate) (pos : Z)
    (l : list (event Sample)) :
  (exists e,
     ThreadStreamConverter_process_data shared_slice t pos None l = (inl e, l))
  \/
  ThreadStreamConverter_process_data shared_slice t pos None l
  = (inr tt, l ++ [EvSend "out" pos None]).
Proof.
  unfold ThreadStreamConverter_process_data, get_array_slice, send, bind, ret,
    raise, modify.
  destruct (converts_from_sharedarray t).
  - left. destruct (conv_input_stream t); now eexists.
  - destruct (conv_output_stream t); [now right | left; now eexists].
Qed.

End Facts.

(** *** The scenario of the spec *)


Example splitter4_outputs :
  map (fun o => (fst o, spec_nb_channel (spec (snd o)),
                 spec_shape (spec (snd o)), spec_timeaxis (spec (snd o))))
    (outputs (snd (after_input_connect "in" (splitter4 0))))
  = [("a", 2, (-1, 2), 0); ("b", 2, (-1, 2), 0)].
Proof. reflexivity. Qed.

Example splitter_bad_group :
  fst (after_input_connect "in"
         (_configure [("a", [0; 4])] Same (splitter4 0)))
  = inl (AssertionError "output_channels do not match channel count 4").
Proof. reflexivity. Qed.

Example splitter_empty_group :
  fst (after_input_connect "in" (_configure [("a", [])] Same (splitter4 0)))
  = inl (ValueError "min() arg is an empty sequence").
Proof. reflexivity. Qed.

(** Time along axis 0: output a gets channels 0 and 1, output b channels 2
    and 3, both at the position of the chunk. *)
Example splitter_axis0 :
  let node := snd (after_input_connect "in" (splitter4 0)) in
  ThreadSplitter_process_data no_shared_memory (_initialize node) 3
    (Some chunk_axis0) []
  = (inr tt,
     [EvSend "a" 3 (Some {| ncols := 2;
                            rows := [[10; 20]; [11; 21]; [12; 22]] |});
      EvSend "b" 3 (Some {| ncols := 2;
                            rows := [[30; 40]; [31; 41]; [32; 42]] |})]).
Proof. reflexivity. Qed.

(** C7, on an input with time along axis 1: the splitter is set up without
    error and declares two-channel outputs of shape [(2, -1)], but
    [process_data] still selects along axis 1.  Output a receives samples
    0 and 1 of all four channels, not channels 0 and 1. *)
Theorem splitter_selects_samples_on_axis1 :
  let setup := after_input_connect "in" (splitter4 1) in
  let node := snd setup in
  let sent_a := {| ncols := 2;
                   rows := [[10; 11]; [20; 21]; [30; 31]; [40; 41]] |} in
  let sent_b := {| ncols := 2;
                   rows := [[12; 13]; [22; 23]; [32; 33]; [42; 43]] |} in
  fst setup = inr tt /\
  map (fun o => (fst o, spec_nb_channel (spec (snd o)),
                 spec_shape (spec (snd o)), spec_timeaxis (spec (snd o))))
    (outputs node)
  = [("a", 2, (2, -1), 1); ("b", 2, (2, -1), 1)] /\
  ThreadSplitter_process_data no_shared_memory (_initialize node) 5
    (Some chunk_axis1) []
  = (inr tt, [EvSend "a" 5 (Some sent_a); EvSend "b" 5 (Some sent_b)]) /\
  channel 1 chunk_axis1 0 = Some [10; 11; 12; 13; 14] /\
  channel 1 chunk_axis1 1 = Some [20; 21; 22; 23; 24] /\
  map (channel 1 sent_a) [0; 1; 2; 3]%nat
  = [Some [10; 11]; Some [20; 21]; Some [30; 31]; Some [40; 41]] /\
  ~ routes_channels 1 1 chunk_axis1 [0; 1] sent_a.
Proof.
  repeat split. intros [_ H]. discriminate H.
Qed.

(** With fewer samples than channels the second group does not even go
    through: the thread dies on the [IndexError] after the first send. *)
Example splitter_axis1_short_chunk :
  let node := snd (after_input_connect "in" (splitter4 1)) in
  ThreadSplitter_process_data no_shared_memory (_initialize node) 3
    (Some {| ncols := 3;
             rows := [[10; 11; 12]; [20; 21; 22]; [30; 31; 32]; [40; 41; 42]] |})
    []
  = (inl (IndexError "index 3 is out of bounds for axis 1 with size 3"),
     [EvSend "a" 3 (Some {| ncols := 2;
                            rows := [[10; 11]; [20; 21]; [30; 31]; [40; 41]] |})]).
Proof. reflexivity. Qed.

(** Shared memory: the splitter fetches the slice. *)
Example splitter_shared_memory :
  let node := snd (after_input_connect "in" (splitter4 0)) in
  ThreadSplitter_process_data shared_chunk (_initialize node) 3 None []
  = (inr tt,
     [EvGetArraySlice 3 None;
      EvSend "a" 3 (Some {| ncols := 2;
                            rows := [[10; 20]; [11; 21]; [12; 22]] |});
      EvSend "b" 3 (Some {| ncols := 2;
                            rows := [[30; 40]; [31; 41]; [32; 42]] |})]).
Proof. reflexivity. Qed.

(** C8, as the converter behaves on a message without data.  From shared
    memory to plain data, the fetch is attempted with the poller itself as
    an extra first argument and raises a [TypeError]: nothing is sent.
    Between two shared-memory streams no fetch is attempted and
    [(pos, None)] goes downstream as it came.  Whatever the converter, the
    position and the log, a message without data ends in one of these two
    ways: the slice is never fetched. *)
Theorem converter_never_fetches :
  ThreadStreamConverter_process_data shared_chunk shared_to_plain 3 None []
  = (inl (TypeError
            "get_array_slice() takes 3 positional arguments but 4 were given"),
     []) /\
  ThreadStreamConverter_process_data shared_chunk shared_to_shared 3 None []
  = (inr tt, [EvSend "out" 3 None]) /\
  forall (Sample Rate : Type) (shared_slice : Z -> option Z -> exn + ndarray Sample)
         (t : ThreadStreamConverter Rate) (pos : Z) (l : list (event Sample)),
    (exists e,
       ThreadStreamConverter_process_data shared_slice t pos None l = (inl e, l))
    \/
    ThreadStreamConverter_process_data shared_slice t pos None l
    = (inr tt, l ++ [EvSend "out" pos None]).
Proof.
  split; [reflexivity|]. split; [reflexivity|].
  intros. apply converter_outcomes.
Qed.

End ToolsFacts.

(** ** More on the Host: errors, sequences of calls *)

Module HostMore.
Import Eff PyDict PyDictFacts Host HostFacts.

(** A loop keeps what each of its rounds keeps, also when a round raises. *)
Lemma for_each_keeps {S A : Type} (P : S -> Prop) (body : A -> M S unit)
    (xs : list A) :
  (forall x s, P s -> P (snd (body x s))) ->
  forall s, P s -> P (snd (for_each xs body s)).
Proof.
  intros Hbody. induction xs as [|x xs IH]; simpl; intros s Hs; [exact Hs|].
  unfold bind. specialize (Hbody x s Hs).
  destruct (body x s) as [[e|[]] s']; simpl in *; [exact Hbody | now apply IH].
Qed.

Lemma delitem_app_fresh {V : Type} (k : string) (v : V) (d : dict V) :
  ~ In k (keys d) -> delitem k (d ++ [(k, v)]) = Some d.
Proof.
  induction d as [|[k' v'] d IH]; simpl; intros H.
  - now rewrite String.eqb_refl.
  - destruct (String.eqb_spec k k') as [->|Hne]; [tauto|].
    rewrite IH; tauto.
Qed.

Lemma getitem_None {V : Type} (k : string) (d : dict V) :
  getitem k d = None <-> ~ In k (keys d).
Proof.
  rewrite <- contains_false. unfold contains.
  destruct (getitem k d); split; congruence.
Qed.

Section Facts.
Variable spawner : string -> string -> list event -> exn + ProcessSpawner.
Variable reply : RPCClient -> list event -> exn + bool.

(** *** Errors of [close_nodegroup] *)

Lemma close_nodegroup_missing (s : state) (nm : string) (force : bool) :
  getitem nm (nodegroup_process s) = None ->
  close_nodegroup reply nm force s = (inl (KeyError nm), s).
Proof. intros H. run. now rewrite H. Qed.

(** X1: closing a name that is not registered raises [KeyError] at the
    first lookup, forced or not: nothing is asked, stopped or deleted. *)
Theorem close_nodegroup_unknown (s : state) (nm : string) (force : bool) :
  ~ In nm (keys (nodegroup_process s)) ->
  close_nodegroup reply nm force s = (inl (KeyError nm), s).
Proof.
  intros H. apply close_nodegroup_missing. now apply getitem_None.
Qed.

(** X2: when the remote call [any_node_running()] itself raises, the
    unforced close raises the same exception; the NodeGroup stays
    registered and its process is not stopped. *)
Theorem close_nodegroup_remote_failure (s : state) (nm : string)
    (ps : ProcessSpawner) (e : exn) :
  getitem nm (nodegroup_process s) = Some ps ->
  reply (client ps) (log s) = inl e ->
  close_nodegroup reply nm false s =
    (inl e,
     {| host_name := host_name s; host_addr := host_addr s;
        nodegroup_process := nodegroup_process s;
        log := log s ++ [EvAnyNodeRunning (client ps)] |}).
Proof.
  intros Hg Hr. run. rewrite Hg; simpl. now rewrite Hr.
Qed.

(** X3: creating a NodeGroup under a fresh name and force-closing it gives
    the registry back as it was; the log gained the spawn, the
    assignment, the stop and the deletion. *)
Theorem create_then_force_close (s : state) (nm ad : string)
    (ps : ProcessSpawner) :
  ~ In nm (keys (nodegroup_process s)) ->
  spawner nm ad (log s) = inr ps ->
  (create_nodegroup spawner nm ad ;;; close_nodegroup reply nm true)%eff s =
    (inr tt,
     {| host_name := host_name s; host_addr := host_addr s;
        nodegroup_process := nodegroup_process s;
        log := log s ++ [EvSpawn nm ad; EvSetItem nm ps; EvStop ps; EvDelItem nm] |}).
Proof.
  intros Hfresh Hsp. unfold bind at 1.
  rewrite (create_nodegroup_fresh spawner s nm ad ps Hfresh Hsp).
  rewrite close_nodegroup_forced with (ps := ps) (d' := nodegroup_process s);
    simpl.
  - now rewrite <- app_assoc.
  - now apply getitem_app_fresh.
  - now apply delitem_app_fresh.
Qed.

End Facts.

(** *** [close_all_nodegroups] without force *)

Section Steady.
Variable busy : RPCClient -> bool.

Lemma close_nodegroup_idle (s : state) (nm : string) (ps : ProcessSpawner)
    (d' : dict ProcessSpawner) :
  getitem nm (nodegroup_process s) = Some ps ->
  delitem nm (nodegroup_process s) = Some d' ->
  busy (client ps) = false ->
  close_nodegroup (steady_reply busy) nm false s =
    (inr tt,
     {| host_name := host_name s; host_addr := host_addr s;
        nodegroup_process := d';
        log := log s ++ [EvAnyNodeRunning (client ps); EvStop ps; EvDelItem nm] |}).
Proof.
  intros Hg Hd Hb. run. rewrite Hg; simpl. unfold steady_reply. rewrite Hb; simpl.
  rewrite Hg; simpl. rewrite Hd; simpl. now rewrite <- !app_assoc.
Qed.

Lemma polite_loop (d1 : dict ProcessSpawner) : forall d2 hn ha l,
  Forall (fun e => busy (client (snd e)) = false) d1 ->
  for_each (keys (d1 ++ d2))
    (fun nm => close_nodegroup (steady_reply busy) nm false)
    {| host_name := hn; host_addr := ha; nodegroup_process := d1 ++ d2; log := l |}
  = for_each (keys d2)
      (fun nm => close_nodegroup (steady_reply busy) nm false)
      {| host_name := hn; host_addr := ha; nodegroup_process := d2;
         log := l ++ polite_closing_events d1 |}.
Proof.
  induction d1 as [|[nm ps] d1 IH]; intros d2 hn ha l Hidle; simpl.
  - now rewrite app_nil_r.
  - inversion Hidle as [|? ? Hb Hidle']; subst. simpl in Hb.
    unfold bind at 1.
    rewrite close_nodegroup_idle with (ps := ps) (d' := d1 ++ d2);
      [| apply getitem_head | apply delitem_head | exact Hb].
    simpl. rewrite IH by exact Hidle'. now rewrite <- app_assoc.
Qed.

(** X4: without force, [close_all_nodegroups] closes the NodeGroups in the
    order of their creation as long as they are idle.  If all are, it
    returns with an empty registry; otherwise it raises NodesStillRunning
    at the first busy one, which stays registered with all that follow
    it, while those before it are closed for good. *)
Theorem close_all_nodegroups_unforced (s : state)
    (d1 d2 : dict ProcessSpawner) :
  nodegroup_process s = d1 ++ d2 ->
  Forall (fun e => busy (client (snd e)) = false) d1 ->
  (d2 = [] ->
   close_all_nodegroups (steady_reply busy) false s =
     (inr tt,
      {| host_name := host_name s; host_addr := host_addr s;
         nodegroup_process := [];
         log := log s ++ polite_closing_events d1 |})) /\
  (forall nm ps d3,
      d2 = (nm, ps) :: d3 -> busy (client ps) = true ->
      close_all_nodegroups (steady_reply busy) false s =
        (inl NodesStillRunning,
         {| host_name := host_name s; host_addr := host_addr s;
            nodegroup_process := (nm, ps) :: d3;
            log := log s ++ polite_closing_events d1
                     ++ [EvAnyNodeRunning (client ps)] |})).
Proof.
  intros Hreg Hidle. destruct s as [hn ha d l]. simpl in Hreg. subst d.
  unfold close_all_nodegroups, bind, gets. simpl. rewrite polite_loop by exact Hidle.
  split.
  - intros ->. reflexivity.
  - intros nm ps d3 -> Hb. simpl. unfold bind at 1.
    replace (close_nodegroup (steady_reply busy) nm false _)
      with (@inl exn unit NodesStillRunning,
            {| host_name := hn; host_addr := ha;
               nodegroup_process := (nm, ps) :: d3;
               log := (l ++ polite_closing_events d1)
                        ++ [EvAnyNodeRunning (client ps)] |}).
    + simpl. now rewrite <- app_assoc.
    + symmetry. run. rewrite String.eqb_refl; simpl.
      unfold steady_reply. now rewrite Hb.
Qed.

End Steady.

(** *** What every sequence of calls keeps *)

Lemma replays_app (l : list event) : forall d d1 l' d2,
  replays d l d1 -> replays d1 l' d2 -> replays d (l ++ l') d2.
Proof.
  assert (H : forall n l, List.length l <= n -> forall d d1 l' d2,
             replays d l d1 -> replays d1 l' d2 -> replays d (l ++ l') d2).
  { induction n as [|n IH]; intros l0 Hlen d d1 l' d2 H1 H2.
    - destruct l0; [|simpl in Hlen; lia]. simpl in *. now subst.
    - destruct l0 as [|e l0]; [simpl in *; now subst|].
      simpl in Hlen. destruct e; simpl in *;
        try exact (IH l0 ltac:(lia) d d1 l' d2 H1 H2).
      + destruct H1 as [Hf H1]. split; [exact Hf|].
        exact (IH l0 ltac:(lia) _ d1 l' d2 H1 H2).
      + destruct l0 as [|e' l0]; [contradiction|].
        destruct e'; try contradiction. simpl.
        destruct H1 as [Hg (dm & Hd & H1)]. split; [exact Hg|].
        exists dm. split; [exact Hd|].
        simpl in Hlen. exact (IH l0 ltac:(lia) _ d1 l' d2 H1 H2).
      + contradiction. }
  intros. eapply H; eauto.
Qed.

Lemma sound_extend (s : state) (d' : dict ProcessSpawner) (l' : list event) :
  sound s -> wf d' -> replays (nodegroup_process s) l' d' ->
  sound {| host_name := host_name s; host_addr := host_addr s;
           nodegroup_process := d'; log := log s ++ l' |}.
Proof.
  intros [Hwf Hr] Hwf' Hr'. split; simpl; [exact Hwf'|].
  eapply replays_app; eassumption.
Qed.

Section Calls.
Variable spawner : string -> string -> list event -> exn + ProcessSpawner.
Variable reply : RPCClient -> list event -> exn + bool.

Lemma create_nodegroup_sound (s : state) (nm ad : string) :
  sound s -> sound (snd (create_nodegroup spawner nm ad s)).
Proof.
  intros Hs. destruct (contains nm (nodegroup_process s)) eqn:Hc.
  - apply contains_In in Hc. now rewrite create_nodegroup_existing.
  - apply contains_false in Hc.
    destruct (spawner nm ad (log s)) as [e|ps] eqn:Hsp.
    + replace (snd (create_nodegroup spawner nm ad s))
        with {| host_name := host_name s; host_addr := host_addr s;
                nodegroup_process := nodegroup_process s;
                log := log s ++ [EvSpawn nm ad] |}.
      * apply sound_extend; [exact Hs | exact (proj1 Hs) | reflexivity].
      * run. apply contains_false in Hc. rewrite Hc; simpl. now rewrite Hsp.
    + rewrite (create_nodegroup_fresh spawner s nm ad ps Hc Hsp). simpl.
      apply sound_extend; [exact Hs | apply wf_setitem_fresh; [exact (proj1 Hs) | exact Hc] |].
      simpl. split; [exact Hc | reflexivity].
Qed.

Lemma close_nodegroup_sound (nm : string) (force : bool) (s : state) :
  sound s -> sound (snd (close_nodegroup reply nm force s)).
Proof.
  intros Hs.
  destruct (getitem nm (nodegroup_process s)) as [ps|] eqn:Hg.
  - destruct (delitem_Some nm ps _ Hg) as [d' Hd].
    pose proof (proj2 (delitem_removes nm _ _ (proj1 Hs) Hd)) as Hwf'.
    destruct force.
    + rewrite (close_nodegroup_forced reply s nm ps d' Hg Hd). simpl.
      apply sound_extend; [exact Hs | exact Hwf' |].
      simpl. split; [exact Hg|]. now exists d'.
    + destruct (reply (client ps) (log s)) as [e|[|]] eqn:Hr.
      * replace (snd (close_nodegroup reply nm false s))
          with {| host_name := host_name s; host_addr := host_addr s;
                  nodegroup_process := nodegroup_process s;
                  log := log s ++ [EvAnyNodeRunning (client ps)] |}.
        -- apply sound_extend; [exact Hs | exact (proj1 Hs) | reflexivity].
        -- run. rewrite Hg; simpl. now rewrite Hr.
      * rewrite (close_nodegroup_refused reply s nm ps Hg Hr). simpl.
        apply sound_extend; [exact Hs | exact (proj1 Hs) | reflexivity].
      * replace (snd (close_nodegroup reply nm false s))
          with {| host_name := host_name s; host_addr := host_addr s;
                  nodegroup_process := d';
                  log := log s ++ [EvAnyNodeRunning (client ps); EvStop ps;
                                   EvDelItem nm] |}.
        -- apply sound_extend; [exact Hs | exact Hwf' |].
           simpl. split; [exact Hg|]. now exists d'.
        -- run. rewrite Hg; simpl. rewrite Hr; simpl. rewrite Hg; simpl.
           rewrite Hd; simpl. now rewrite <- !app_assoc.
  - now rewrite (close_nodegroup_missing reply s nm force Hg).
Qed.

Lemma close_all_nodegroups_sound (force : bool) (s : state) :
  sound s -> sound (snd (close_all_nodegroups reply force s)).
Proof.
  intros Hs. unfold close_all_nodegroups, bind, gets.
  apply for_each_keeps; [|exact Hs].
  intros nm s'. apply close_nodegroup_sound.
Qed.

Lemma close_sound (s : state) : sound s -> sound (snd (close reply s)).
Proof.
  intros Hs. pose proof (close_all_nodegroups_sound true s Hs) as H.
  unfold close, bind at 1.
  destruct (close_all_nodegroups reply true s) as [[e|[]] s'] eqn:E;
    simpl in *; [exact H|].
  unfold RPCServer_close, emit, modify. simpl.
  apply sound_extend; [exact H | exact (proj1 H) | reflexivity].
Qed.

Lemma serve_sound (c : call) (s : state) :
  sound s -> sound (serve spawner reply c s).
Proof.
  destruct c; simpl;
    [apply create_nodegroup_sound | apply close_nodegroup_sound
    | apply close_all_nodegroups_sound | apply close_sound].
Qed.

Lemma serve_all_sound (cs : list call) : forall s,
  sound s -> sound (serve_all spawner reply cs s).
Proof.
  induction cs as [|c cs IH]; simpl; intros s Hs; [exact Hs|].
  apply IH. now apply serve_sound.
Qed.

(** X6: whatever calls a Host has served since its creation, its registry
    is what the assignments and deletions of its log build from the
    empty one, where every assignment is to a name not registered at that
    moment and every deletion comes right after the stop of the handle
    that was registered under the deleted name: no entry is dropped
    without its process being stopped, no process is stopped without
    being registered. *)
Theorem registry_replays_log (hn ha : string) (cs : list call) :
  let s := serve_all spawner reply cs (init hn ha) in
  replays [] (log s) (nodegroup_process s).
Proof.
  apply (serve_all_sound cs (init hn ha)). split; [constructor | reflexivity].
Qed.

End Calls.

(** *** Concrete calls *)

Lemma close_nodegroup_unknown_witness :
  ~ In "nope" (keys (nodegroup_process host1)) /\
  close_nodegroup busy_reply "nope" false host1 = (inl (KeyError "nope"), host1).
Proof.
  assert (H : ~ In "nope" (keys (nodegroup_process host1))).
  { simpl. intros [E|[]]. discriminate E. }
  split; [exact H|].
  exact (close_nodegroup_unknown busy_reply host1 "nope" false H).
Defined.

Lemma close_nodegroup_remote_failure_witness :
  close_nodegroup timeout_reply "ng0" false host1 =
    (inl (RemoteError "Timeout"),
     {| host_name := host_name host1; host_addr := host_addr host1;
        nodegroup_process := nodegroup_process host1;
        log := log host1 ++ [EvAnyNodeRunning (client ng0)] |}).
Proof.
  exact (close_nodegroup_remote_failure timeout_reply host1 "ng0" ng0
           (RemoteError "Timeout") eq_refl eq_refl).
Defined.

Lemma create_then_force_close_witness :
  ~ In "ng1" (keys (nodegroup_process host1)) /\
  nodegroup_process
    (snd ((create_nodegroup echo_spawner "ng1" "addr1" ;;;
           close_nodegroup busy_reply "ng1" true)%eff host1))
  = nodegroup_process host1.
Proof.
  assert (H : ~ In "ng1" (keys (nodegroup_process host1))).
  { simpl. intros [E|[]]. discriminate E. }
  split; [exact H|].
  rewrite (create_then_force_close echo_spawner busy_reply host1 "ng1" "addr1"
             (ng_echo "ng1" "addr1") H eq_refl).
  reflexivity.
Defined.

Lemma close_all_nodegroups_unforced_witness :
  close_all_nodegroups (steady_reply b_is_busy) false host3 =
    (inl NodesStillRunning,
     {| host_name := "host"; host_addr := "tcp://127.0.0.1:4000";
        nodegroup_process := [("b", ng "b"); ("c", ng "c")];
        log := [EvAnyNodeRunning (client (ng "a")); EvStop (ng "a"); EvDelItem "a";
                EvAnyNodeRunning (client (ng "b"))] |}).
Proof.
  destruct (close_all_nodegroups_unforced b_is_busy host3
              [("a", ng "a")] [("b", ng "b"); ("c", ng "c")] eq_refl)
    as [_ H].
  - repeat constructor.
  - exact (H "b" (ng "b") [("c", ng "c")] eq_refl eq_refl).
Defined.

(** A Host that served a refused duplicate, a failed close and a close of
    everything. *)
Example served_calls :
  let s := serve_all echo_spawner (steady_reply b_is_busy)
             [CreateNodegroup "a" "x"; CreateNodegroup "a" "y";
              CreateNodegroup "b" "z"; CloseNodegroup "b" false;
              CloseNodegroup "c" true; CloseAllNodegroups false]
             (init "host" "addr") in
  keys (nodegroup_process s) = ["b"] /\ List.length (log s) = 9.
Proof. split; reflexivity. Qed.
End HostMore.

(** ** More on the poller: positions, delivery, lost streams, early stops *)

Module PollerMore.
Import Poller PollerFacts.

Section Facts.
Variable Data : Type.
Implicit Types (s : sys Data) (r : reply Data) (a : action Data).

Lemma step_delivery a s : delivery s -> delivery (step a s).
Proof.
  destruct s as [st tmo rn lk ps pr pst lv h].
  unfold delivery. simpl. intros [Hpos Hd].
  destruct a; simpl;
    unfold run_step, stop_step, wait_step, destroy_step, finished, deref; simpl.
  - destruct pr; try destruct lk; try destruct (negb rn); try destruct (lv st);
      try destruct (ev r >? 0)%Z; simpl in *; try (split; assumption);
      try (split; [reflexivity|]; now exists (fst (msg r)), (received h));
      destruct Hd as (p & rest & Hr & Hd); rewrite Hr in *; simpl in *;
      (split; [exact Hpos|]); rewrite Hpos, Hd; reflexivity.
  - destruct pst; try destruct lk; simpl; split; assumption.
  - destruct pr; simpl; split; assumption.
  - split; assumption.
Qed.

Lemma exec_delivery (sched : list (action Data)) : forall s,
  delivery s -> delivery (exec sched s).
Proof.
  induction sched as [|a sched IH]; simpl; intros s H; [exact H|].
  apply IH. now apply step_delivery.
Qed.

Lemma init_delivery (stream : nat) (tmo : Z) : delivery (@init Data stream tmo).
Proof. split; reflexivity. Qed.

(** X7: [pos()] is the position of the message received last, and [None]
    as long as none was received, in every reachable state. *)
Theorem pos_is_last_received (stream : nat) (tmo : Z)
    (sched : list (action Data)) :
  let s := exec sched (init stream tmo) in
  pos s = option_map fst (hd_error (received (history s))).
Proof.
  exact (proj1 (exec_delivery sched _ (init_delivery stream tmo))).
Qed.

(** X8: every received message is handed to [process_data] once, in the
    order of reception and with its own position and data; only the
    message in flight, if any, is still to come. *)
Theorem dispatched_is_received (stream : nat) (tmo : Z)
    (sched : list (action Data)) :
  let s := exec sched (init stream tmo) in
  dispatched (history s) =
    map (@as_dispatched Data)
      (if in_flight s then tl (received (history s)) else received (history s)).
Proof.
  intros s.
  destruct (exec_delivery sched _ (init_delivery stream tmo)) as [_ H].
  fold s in H. unfold in_flight. destruct (pc_run s); try exact H.
  destruct H as (p & rest & -> & H). exact H.
Qed.

(** *** A stream that is gone *)

Lemma step_dead a s :
  deref s = None ->
  deref (step a s) = None /\ stream_calls (step a s) = stream_calls s.
Proof.
  destruct s as [st tmo rn lk ps pr pst lv h].
  unfold deref, stream_calls. simpl. intros Hd.
  destruct (lv st) eqn:Hlv; [discriminate|].
  destruct a; simpl;
    unfold run_step, stop_step, wait_step, destroy_step, finished, deref; simpl;
    rewrite ?Hlv.
  - destruct pr; try destruct lk; try destruct (negb rn); simpl;
      rewrite ?Hlv; auto.
  - destruct pst; try destruct lk; simpl; rewrite ?Hlv; auto.
  - destruct pr; simpl; rewrite ?Hlv; auto.
  - destruct (Nat.eqb st stream); rewrite ?Hlv; auto.
Qed.

(** X9: once the stream is gone, the poller makes no further call on it,
    neither [poll] nor [recv], whatever happens next. *)
Theorem dead_stream_is_left_alone (s : sys Data) (sched : list (action Data)) :
  deref s = None ->
  deref (exec sched s) = None /\ stream_calls (exec sched s) = stream_calls s.
Proof.
  revert s. induction sched as [|a sched IH]; simpl; intros s H; [auto|].
  destruct (step_dead a s H) as [H1 H2].
  destruct (IH _ H1) as [H3 H4]. split; [exact H3 | congruence].
Qed.

(** *** A [stop()] before [run()] has begun *)

Lemma step_not_begun a s :
  is_run_action a = false -> pc_run s = L35 ->
  pc_run (step a s) = L35.
Proof.
  destruct a; simpl; try discriminate; intros _ Hpc;
    unfold stop_step, wait_step, destroy_step, upd.
  - destruct (pc_stop s); try destruct (running_lock s); simpl; auto.
  - destruct (finished s); simpl; auto.
  - simpl; auto.
Qed.

Lemma exec_not_begun (sched : list (action Data)) : forall s,
  forallb (fun a => negb (is_run_action a)) sched = true ->
  pc_run s = L35 -> pc_run (exec sched s) = L35.
Proof.
  induction sched as [|a sched IH]; simpl; intros s H Hpc; [exact Hpc|].
  apply andb_prop in H. destruct H as [Ha Hs]. apply IH; [exact Hs|].
  apply step_not_begun; [|exact Hpc]. now destruct (is_run_action a).
Qed.

(** X10: the calls of [stop()] that return before [run()] has begun are
    lost.  However many there were, the first two steps of [run()] set
    the flag again and the loop passes its first test of the flag. *)
Theorem stop_before_run_is_lost (stream : nat) (tmo : Z)
    (sched : list (action Data)) (r1 r2 r3 r4 : reply Data) :
  forallb (fun a => negb (is_run_action a)) sched = true ->
  let s := exec sched (init stream tmo) in
  pc_stop s = Outside ->
  running s = false /\
  running (exec [Run r1; Run r2] s) = true /\
  pc_run (exec [Run r1; Run r2; Run r3; Run r4] s) = L42.
Proof.
  intros Hsched s Hstop.
  assert (Hpc : pc_run s = L35) by (apply exec_not_begun; auto).
  destruct (reachable_inv Data stream tmo sched) as (_ & _ & Hl & Hu & _).
  fold s in Hl, Hu.
  assert (Hlk : running_lock s = None).
  { unfold lock_matches in Hl. rewrite Hpc, Hstop in Hl.
    destruct (running_lock s) as [[|]|]; simpl in Hl; destruct Hl;
      try discriminate; reflexivity. }
  assert (Hrun : running s = false).
  { clear - Hsched. subst s. revert Hsched.
    assert (H : forall s0 : sys Data, running s0 = false -> pc_run s0 = L35 ->
              forallb (fun a => negb (is_run_action a)) sched = true ->
              running (exec sched s0) = false).
    { induction sched as [|a sched IH]; simpl; intros s0 Hr Hp Hs; [exact Hr|].
      apply andb_prop in Hs. destruct Hs as [Ha Hs].
      apply IH; [| apply step_not_begun; [now destruct (is_run_action a) | exact Hp]
                 | exact Hs].
      destruct a; simpl in *; try discriminate;
        unfold stop_step, wait_step, destroy_step, upd.
      - destruct (pc_stop s0); try destruct (running_lock s0); simpl; auto.
      - destruct (finished s0); simpl; auto.
      - simpl; auto. }
    apply H; reflexivity. }
  split; [exact Hrun|].
  assert (H1 : run_step r1 s =
               upd s (running s) (Some RunThread) (_pos s) L36 (pc_stop s) []).
  { unfold run_step. now rewrite Hpc, Hlk. }
  simpl. rewrite H1. split; reflexivity.
Qed.

End Facts.

(** *** Concrete runs *)

Lemma dead_stream_is_left_alone_witness :
  let s := exec (one_round ++ [Destroy 0]) (init 0 200) in
  deref s = None /\
  stream_calls (exec (repeat (Run a_message) 3 ++ [Stop; Stop; Wait]) s)
  = [EvRecv 500 (Some 7%Z); EvPoll 200 12].
Proof.
  split; [reflexivity|].
  rewrite (proj2 (dead_stream_is_left_alone Z
                    (exec (one_round ++ [Destroy 0]) (init 0 200))
                    (repeat (Run a_message) 3 ++ [Stop; Stop; Wait]) eq_refl)).
  reflexivity.
Defined.

Lemma stop_before_run_is_lost_witness :
  let s := exec [Stop; Stop; Wait; Stop; Stop] (init 0 200) in
  pc_stop s = Outside /\
  List.length (filter (fun e => match e with EvStopReturn => true | _ => false end)
                 (history s)) = 2%nat /\
  running (exec [Run a_message; Run a_message] s) = true.
Proof.
  split; [reflexivity|]. split; [reflexivity|].
  exact (proj1 (proj2 (stop_before_run_is_lost Z 0 200
                         [Stop; Stop; Wait; Stop; Stop]
                         a_message a_message a_message a_message
                         eq_refl eq_refl))).
Defined.

(** Two messages, then a poll that times out: both were dispatched and
    [pos()] is the position of the second. *)
Example two_messages :
  let second : reply Z := {| ev := 8; msg := (1000%Z, None) |} in
  let s := exec (one_round ++ repeat (Run second) 6 ++ repeat (Run no_message) 3)
             (init 0 200) in
  pos s = Some 1000%Z /\
  dispatched (history s) = [(Some 1000%Z, None); (Some 500%Z, Some 7%Z)].
Proof. split; reflexivity. Qed.

End PollerMore.

(** ** More on the converter and the splitter *)

Module ToolsMore.
Import Eff PyDict PyDictFacts Tools ToolsFacts.
Local Open Scope Z_scope.

Lemma getitem_setitem_same {V : Type} (k : string) (v : V) (d : dict V) :
  getitem k (setitem k v d) = Some v.
Proof.
  induction d as [|[k' v'] d IH]; simpl.
  - now rewrite String.eqb_refl.
  - destruct (String.eqb_spec k k') as [->|Hne]; simpl.
    + now rewrite String.eqb_refl.
    + destruct (String.eqb_spec k k'); [contradiction | exact IH].
Qed.

Lemma getitem_setitem_other {V : Type} (k k' : string) (v : V) (d : dict V) :
  k <> k' -> getitem k (setitem k' v d) = getitem k d.
Proof.
  intros Hne. induction d as [|[k0 v0] d IH]; simpl.
  - destruct (String.eqb_spec k k'); [contradiction | reflexivity].
  - destruct (String.eqb_spec k' k0) as [->|Hne0]; simpl.
    + destruct (String.eqb_spec k k0); [contradiction | reflexivity].
    + destruct (String.eqb_spec k k0); [reflexivity | exact IH].
Qed.

Lemma param_eqb_eq (a b : param_value) : param_eqb a b = true <-> a = b.
Proof.
  destruct a, b; simpl; split; try discriminate; try reflexivity; intros H.
  - apply String.eqb_eq in H. now subst.
  - injection H as ->. apply String.eqb_refl.
  - apply Z.eqb_eq in H. now subst.
  - injection H as ->. apply Z.eqb_refl.
  - destruct (list_eq_dec Z.eq_dec dims dims0); [now subst | discriminate].
  - injection H as ->. destruct (list_eq_dec Z.eq_dec dims0 dims0); congruence.
Qed.

Lemma param_eqb_neq (a b : param_value) : param_eqb a b = false <-> a <> b.
Proof.
  rewrite <- param_eqb_eq. destruct (param_eqb a b); split; congruence.
Qed.

(** *** [StreamConverter._initialize] *)

(** Is the difference on key [k] recorded? *)
Lemma conversions_loop_getitem (inp outp : dict param_value) (k : string)
    (ks : list string) : forall acc,
  getitem k (conversions_loop ks inp outp acc) =
    if existsb (String.eqb k) ks && negb (checked_by_streams k)
       && negb (param_eqb (params_get k inp) (params_get k outp))
       && negb (param_eqb (params_get k inp) PNone)
    then Some (params_get k inp, params_get k outp)
    else getitem k acc.
Proof.
  induction ks as [|k0 ks IH]; intros acc; simpl; [reflexivity|].
  destruct (String.eqb_spec k k0) as [<-|Hne]; simpl.
  - destruct (checked_by_streams k) eqn:Hc; simpl.
    + rewrite IH. simpl. now rewrite andb_false_r.
    + destruct (param_eqb (params_get k inp) (params_get k outp)) eqn:He; simpl.
      * rewrite IH. simpl. now rewrite andb_false_r.
      * destruct (param_eqb (params_get k inp) PNone) eqn:Hn; simpl.
        -- rewrite IH. now rewrite andb_false_r.
        -- rewrite IH. simpl. rewrite !andb_true_r.
           rewrite getitem_setitem_same. now destruct (existsb _ ks).
  - destruct (checked_by_streams k0); [apply IH|].
    destruct (negb _ && negb _); rewrite IH; [|reflexivity].
    now rewrite getitem_setitem_other.
Qed.

Lemma existsb_keys {V : Type} (k : string) (d : dict V) :
  existsb (String.eqb k) (keys d) = contains k d.
Proof.
  unfold contains. induction d as [|[k' v] d IH]; simpl; [reflexivity|].
  destruct (String.eqb k k'); [reflexivity | exact IH].
Qed.

Lemma conversions_getitem_iff (inp outp : dict param_value) (k : string)
    (old new : param_value) :
  getitem k (conversions_of inp outp) = Some (old, new) <->
  getitem k inp = Some old /\ checked_by_streams k = false /\
  old <> PNone /\ new = params_get k outp /\ old <> new.
Proof.
  unfold conversions_of. rewrite conversions_loop_getitem, existsb_keys.
  unfold contains.
  destruct (getitem k inp) as [v|] eqn:Hg; simpl.
  - assert (Hv : params_get k inp = v) by (unfold params_get; now rewrite Hg).
    rewrite Hv. destruct (checked_by_streams k); simpl.
    + split; [discriminate | intros (_ & H & _); discriminate H].
    + destruct (param_eqb v (params_get k outp)) eqn:He; simpl.
      * apply param_eqb_eq in He. split; [discriminate|].
        intros (E & _ & _ & Hn & Hne). congruence.
      * apply param_eqb_neq in He.
        destruct (param_eqb v PNone) eqn:Hn; simpl.
        -- apply param_eqb_eq in Hn. split; [discriminate|].
           intros (E & _ & Hne & _). congruence.
        -- apply param_eqb_neq in Hn. split.
           ++ intros E. injection E as <- <-. auto.
           ++ intros (E & _ & _ & Hnew & _). congruence.
  - split; [discriminate | intros (H & _); discriminate H].
Qed.

(** X11: [conversions[k]] is [(old, new)] exactly when [k] is a key of the
    input parameters other than port, protocol, interface and dtype,
    [old] is its value there and is not [None], [new] is the value in the
    output parameters ([None] if absent), and the two differ.  A
    difference of dtype, in particular, is never recorded. *)
Theorem conversions_recorded (inp outp : dict param_value) (k : string)
    (old new : param_value) :
  getitem k (conversions_of inp outp) = Some (old, new) <->
  getitem k inp = Some old /\ checked_by_streams k = false /\
  old <> PNone /\ new = params_get k outp /\ old <> new.
Proof. apply conversions_getitem_iff. Qed.

Lemma conversions_loop_same (p : dict param_value) (ks : list string) :
  forall acc, conversions_loop ks p p acc = acc.
Proof.
  induction ks as [|k ks IH]; intros acc; simpl; [reflexivity|].
  destruct (checked_by_streams k); [apply IH|].
  assert (H : param_eqb (params_get k p) (params_get k p) = true)
    by now apply param_eqb_eq.
  rewrite H. simpl. apply IH.
Qed.

Section Facts.
Variable Sample : Type.
Variable Rate : Type.
Variable shared_slice : Z -> option Z -> exn + ndarray Sample.

(** The guard of the converter, on the thread [_initialize] creates. *)
Lemma initialized_guard (n : StreamConverter Rate) :
  converts_from_sharedarray (StreamConverter_initialize n) = true <->
  getitem "transfermode" (sc_input_params n) = Some (PStr "sharedarray") /\
  params_get "transfermode" (sc_output_params n) <> PStr "sharedarray".
Proof.
  unfold converts_from_sharedarray, StreamConverter_initialize. simpl.
  unfold contains.
  destruct (getitem "transfermode"
              (conversions_of (sc_input_params n) (sc_output_params n)))
    as [[old new]|] eqn:Hg; simpl.
  - apply conversions_getitem_iff in Hg. destruct Hg as (Hi & _ & _ & Hn & Hne).
    rewrite param_eqb_eq. split.
    + intros ->. split; [exact Hi | congruence].
    + intros [Hi' _]. congruence.
  - split; [discriminate|]. intros [Hi Hne]. exfalso.
    assert (H : getitem "transfermode"
                  (conversions_of (sc_input_params n) (sc_output_params n))
                = Some (PStr "sharedarray",
                        params_get "transfermode" (sc_output_params n))).
    { apply conversions_getitem_iff. repeat split; auto; try discriminate. }
    congruence.
Qed.

(** X12: a converter whose input is not a shared-memory stream, or whose
    output has the transfer mode of its input, relays every message as it
    came, position and data, whatever other differences [_initialize]
    recorded between the two streams. *)
Theorem converter_relays_unchanged (n : StreamConverter Rate) (pos : Z)
    (data : option (ndarray Sample)) (l : list (event Sample)) :
  getitem "transfermode" (sc_input_params n) <> Some (PStr "sharedarray") \/
  params_get "transfermode" (sc_output_params n) = PStr "sharedarray" ->
  ThreadStreamConverter_process_data shared_slice (StreamConverter_initialize n)
    pos data l
  = (inr tt, l ++ [EvSend "out" pos data]).
Proof.
  intros H.
  assert (Hg : converts_from_sharedarray (StreamConverter_initialize n) = false).
  { destruct (converts_from_sharedarray (StreamConverter_initialize n)) eqn:E;
      [|reflexivity].
    apply initialized_guard in E. destruct E as [E1 E2]. destruct H; contradiction. }
  unfold ThreadStreamConverter_process_data. rewrite Hg. reflexivity.
Qed.

(** X13: a converter from a shared-memory input to an output of another
    transfer mode relays nothing: on every message, with or without data,
    the call of [get_array_slice] raises the [TypeError] and nothing is
    fetched or sent. *)
Theorem converter_from_shared_always_raises (n : StreamConverter Rate) (pos : Z)
    (data : option (ndarray Sample)) (l : list (event Sample)) :
  getitem "transfermode" (sc_input_params n) = Some (PStr "sharedarray") ->
  params_get "transfermode" (sc_output_params n) <> PStr "sharedarray" ->
  ThreadStreamConverter_process_data shared_slice (StreamConverter_initialize n)
    pos data l
  = (inl (TypeError
            "get_array_slice() takes 3 positional arguments but 4 were given"),
     l).
Proof.
  intros H1 H2.
  assert (Hg : converts_from_sharedarray (StreamConverter_initialize n) = true)
    by (apply initialized_guard; auto).
  unfold ThreadStreamConverter_process_data. rewrite Hg. reflexivity.
Qed.

(** *** [ThreadSplitter.process_data]: what is sent in any case *)

#[local] Abbreviation route_to t pos a :=
  (fun '(nm, chans) =>
     match getitem nm (ts_outputs_stream t) with
     | None => raise (KeyError nm)
     | Some _ =>
         (sub <- lift (take_columns a chans) ;; send nm pos (Some sub))%eff
     end).

Lemma splitter_loop_prefix (t : ThreadSplitter Rate) (pos : Z)
    (a : ndarray Sample) (oc : dict (list Z)) : forall (l : list (event Sample)),
  exists (k : nat) (sent : list (event Sample)),
    snd (for_each oc (route_to t pos a) l) = l ++ sent /\
    map (@send_target Sample) sent =
      map (fun kc => Some (fst kc, pos)) (firstn k oc) /\
    (fst (for_each oc (route_to t pos a) l) = inr tt -> k = List.length oc).
Proof.
  induction oc as [|[nm chans] oc IH]; intros l.
  - exists 0%nat, []. simpl. rewrite app_nil_r. auto.
  - destruct (getitem nm (ts_outputs_stream t)) as [o|] eqn:Hg.
    + destruct (take_columns a chans) as [e|sub] eqn:Ht.
      * assert (Hstep : for_each ((nm, chans) :: oc) (route_to t pos a) l
                        = (inl e, l)).
        { simpl. unfold bind at 1. rewrite Hg. unfold bind at 1.
          now rewrite Ht. }
        rewrite Hstep. exists 0%nat, []. simpl. rewrite app_nil_r.
        repeat split. discriminate.
      * assert (Hstep : for_each ((nm, chans) :: oc) (route_to t pos a) l
                        = for_each oc (route_to t pos a)
                            (l ++ [EvSend nm pos (Some sub)])).
        { simpl. unfold bind at 1. rewrite Hg. unfold bind at 1.
          now rewrite Ht. }
        rewrite Hstep.
        destruct (IH (l ++ [EvSend nm pos (Some sub)])) as (k & sent & H1 & H2 & H3).
        exists (S k), (EvSend nm pos (Some sub) :: sent).
        rewrite H1, <- app_assoc. simpl.
        repeat split; [now rewrite H2 | intros H; f_equal; now apply H3].
    + assert (Hstep : for_each ((nm, chans) :: oc) (route_to t pos a) l
                      = (inl (KeyError nm), l)).
      { simpl. unfold bind at 1. now rewrite Hg. }
      rewrite Hstep. exists 0%nat, []. simpl. rewrite app_nil_r.
      repeat split. discriminate.
Qed.

(** X14: whatever the chunk and whether [process_data] returns or raises,
    what it sent are sends to the first groups of [output_channels], in
    their order, one each, all with the position of the chunk; when it
    returns, every group got its send. *)
Theorem splitter_sends_in_group_order (t : ThreadSplitter Rate) (pos : Z)
    (a : ndarray Sample) (l : list (event Sample)) :
  let r := ThreadSplitter_process_data shared_slice t pos (Some a) l in
  exists (k : nat) (sent : list (event Sample)),
    snd r = l ++ sent /\
    map (@send_target Sample) sent =
      map (fun kc => Some (fst kc, pos)) (firstn k (ts_output_channels t)) /\
    (fst r = inr tt -> k = List.length (ts_output_channels t)).
Proof.
  exact (splitter_loop_prefix t pos a (ts_output_channels t) l).
Qed.

(** X15: when the slice announced through shared memory cannot be fetched,
    because the input stream is gone or because [get_array_slice] raises,
    [process_data] raises and nothing is sent on any output. *)
Theorem splitter_fetch_failure (t : ThreadSplitter Rate) (pos : Z)
    (l : list (event Sample)) :
  (ts_input_stream t = None ->
   ThreadSplitter_process_data shared_slice t pos None l =
     (inl (Poller.NoneType_has_no "get_array_slice"), l)) /\
  (forall inp e,
      ts_input_stream t = Some inp -> shared_slice pos None = inl e ->
      ThreadSplitter_process_data shared_slice t pos None l =
        (inl e, l ++ [EvGetArraySlice pos None])).
Proof.
  split.
  - intros H. unfold ThreadSplitter_process_data, bind. now rewrite H.
  - intros inp e H He.
    unfold ThreadSplitter_process_data, get_array_slice, bind, modify, lift.
    now rewrite H, He.
Qed.

(** *** [ChannelSplitter.after_input_connect] in full *)

Lemma for_each_app {S A : Type} (body : A -> M S unit) (xs ys : list A) (s : S) :
  for_each (xs ++ ys) body s =
    match for_each xs body s with
    | (inl e, s') => (inl e, s')
    | (inr _, s') => for_each ys body s'
    end.
Proof.
  revert s. induction xs as [|x xs IH]; intros s; simpl; [reflexivity|].
  unfold bind. destruct (body x s) as [[e|[]] s']; [reflexivity | apply IH].
Qed.

Lemma check_channels_error (chans : list Z) (nn : Z) (n : ChannelSplitter Rate) :
  ~ valid_group nn chans ->
  check_channels chans nn n = (inl (group_error nn chans), n).
Proof.
  destruct chans as [|x r]; [reflexivity|].
  rewrite valid_group_cons, <- fold_min_nonneg, <- fold_max_below.
  intros H.
  unfold check_channels, py_min, py_max, lift, assert_, bind, ret, raise,
    group_error. simpl.
  destruct (Z.geb_spec (fold_left Z.min r x) 0); simpl; [|reflexivity].
  destruct (Z.ltb_spec (fold_left Z.max r x) nn); [lia | reflexivity].
Qed.

Lemma after_input_connect_unfold (n : ChannelSplitter Rate) (inputname : string) :
  after_input_connect inputname n =
    for_each (output_channels n) (fun '(k, chans) =>
      (check_channels chans (nb_channel (input_params (input n))) ;;;
       o <- gets (@outputs Rate) ;;
       set_outputs
         (setitem k {| spec := make_spec (input_params (input n))
                                 (resolved_axis n) chans |} o))%eff)
      (resolved n).
Proof.
  unfold after_input_connect, resolved, resolved_axis, bind, gets, ret,
    set_output_timeaxis, set_outputs, modify.
  destruct (output_timeaxis n); reflexivity.
Qed.

Lemma wf_app_l {V : Type} (d1 d2 : dict V) : wf (d1 ++ d2) -> wf d1.
Proof.
  unfold wf. rewrite keys_app. intros H. now apply NoDup_app_remove_r in H.
Qed.

(** The loop on a valid prefix of the groups. *)
Lemma derive_prefix (n : ChannelSplitter Rate) (oc1 : dict (list Z)) :
  wf oc1 ->
  Forall (fun kc => valid_group (nb_channel (input_params (input n))) (snd kc)) oc1 ->
  for_each oc1 (fun '(k, chans) =>
      (check_channels chans (nb_channel (input_params (input n))) ;;;
       o <- gets (@outputs Rate) ;;
       set_outputs
         (setitem k {| spec := make_spec (input_params (input n))
                                 (resolved_axis n) chans |} o))%eff)
    (resolved n)
  = (inr tt,
     with_outputs
       (map (derived_output (input_params (input n)) (resolved_axis n)) oc1)
       (resolved n)).
Proof.
  intros Hwf Hv.
  destruct (derive_loop Rate (input_params (input n)) (resolved_axis n) oc1 (resolved n))
    as [[_ Heq]|[Hex _]]; [simpl; tauto | exact Hwf | exact Heq |].
  exfalso. apply Exists_exists in Hex. destruct Hex as (kc & Hin & Hnv).
  rewrite Forall_forall in Hv. auto.
Qed.

(** X16: [after_input_connect] stops at the first group that is empty or
    has an index outside [0, nb_channel).  It raises [ValueError] for an
    empty group and the [AssertionError] naming the channel count
    otherwise, and leaves the node with ['same'] already resolved and
    with the outputs of the groups before the offending one only. *)
Theorem after_input_connect_failure (n : ChannelSplitter Rate)
    (inputname k : string) (chans : list Z) (oc1 oc2 : dict (list Z)) :
  let p := input_params (input n) in
  output_channels n = oc1 ++ (k, chans) :: oc2 ->
  wf (output_channels n) ->
  Forall (fun kc => valid_group (nb_channel p) (snd kc)) oc1 ->
  ~ valid_group (nb_channel p) chans ->
  after_input_connect inputname n =
    (inl (group_error (nb_channel p) chans),
     with_outputs (map (derived_output p (resolved_axis n)) oc1) (resolved n)).
Proof.
  intros p Hoc Hwf Hv Hnv. rewrite after_input_connect_unfold, Hoc.
  rewrite for_each_app. rewrite Hoc in Hwf.
  rewrite (derive_prefix n oc1 (wf_app_l _ _ Hwf) Hv).
  simpl. unfold bind at 1. unfold bind at 1.
  now rewrite (check_channels_error chans _ _ Hnv).
Qed.

(** What a successful [after_input_connect] leaves. *)
Lemma after_input_connect_success (n n' : ChannelSplitter Rate)
    (inputname : string) :
  wf (output_channels n) ->
  after_input_connect inputname n = (inr tt, n') ->
  Forall (fun kc => valid_group (nb_channel (input_params (input n))) (snd kc))
    (output_channels n) /\
  n' = with_outputs
         (map (derived_output (input_params (input n)) (resolved_axis n))
            (output_channels n))
         (resolved n).
Proof.
  intros Hwf. rewrite after_input_connect_unfold.
  destruct (derive_loop Rate (input_params (input n)) (resolved_axis n)
              (output_channels n) (resolved n))
    as [[Hall Heq]|[_ (e & n'' & Heq)]]; [simpl; tauto | exact Hwf | |];
    rewrite Heq; intros E; [|discriminate E].
  injection E as <-. split; [exact Hall | reflexivity].
Qed.

(** X17: a second [after_input_connect] on the same input changes
    nothing: the outputs are derived anew and are the same. *)
Theorem after_input_connect_idempotent (n n' : ChannelSplitter Rate)
    (name1 name2 : string) :
  wf (output_channels n) ->
  after_input_connect name1 n = (inr tt, n') ->
  after_input_connect name2 n' = (inr tt, n').
Proof.
  intros Hwf H. destruct (after_input_connect_success n n' name1 Hwf H) as [Hv ->].
  rewrite after_input_connect_unfold.
  pose proof (derive_prefix n (output_channels n) Hwf Hv) as Hloop.
  destruct n as [i oc ota o]. unfold resolved, resolved_axis in *. simpl in *.
  destruct ota; exact Hloop.
Qed.

(** X18: ['same'] is resolved once.  When a node configured with
    [output_timeaxis='same'] has gone through [after_input_connect] and
    its input is then connected to another stream, the outputs derived by
    the next [after_input_connect] take dtype, sample rate and channel
    count from the new input but keep the time axis of the first one. *)
Theorem same_is_resolved_once (n n1 n2 : ChannelSplitter Rate)
    (i2 : InputStream Rate) (name1 name2 : string) :
  wf (output_channels n) ->
  output_timeaxis n = Same ->
  after_input_connect name1 n = (inr tt, n1) ->
  after_input_connect name2 (with_input i2 n1) = (inr tt, n2) ->
  output_timeaxis n2 = Axis (timeaxis (input_params (input n))) /\
  outputs n2 =
    map (derived_output (input_params i2) (timeaxis (input_params (input n))))
      (output_channels n).
Proof.
  intros Hwf Hsame H1 H2.
  destruct (after_input_connect_success n n1 name1 Hwf H1) as [_ ->].
  apply after_input_connect_success in H2.
  - destruct H2 as [_ ->]. unfold resolved_axis, resolved. rewrite Hsame.
    simpl. split; reflexivity.
  - unfold resolved. rewrite Hsame. exact Hwf.
Qed.

(** X19: from the configuration to the outputs.  Once
    [after_input_connect] has returned, the thread [_initialize] creates
    handles every chunk that has as many columns as the input has
    channels: no lookup and no index fails, each group gets one send with
    the position of the chunk, in the order of the groups, and with time
    along axis 0 the array sent for a group holds the channels of the
    group, in order, and no other. *)
Theorem configured_splitter_routes (n n' : ChannelSplitter Rate)
    (inputname : string) (pos : Z) (a : ndarray Sample)
    (l : list (event Sample)) :
  wf (output_channels n) ->
  after_input_connect inputname n = (inr tt, n') ->
  well_shaped a ->
  Z.of_nat (ncols a) = nb_channel (input_params (input n)) ->
  ThreadSplitter_process_data shared_slice (_initialize n') pos (Some a) l
  = (inr tt,
     l ++ map (fun kc => EvSend (fst kc) pos (Some (columns a (snd kc))))
            (output_channels n)) /\
  forall k chans, In (k, chans) (output_channels n) ->
                  routes_channels 0 0 a chans (columns a chans).
Proof.
  intros Hwf H Hshape Hcols.
  destruct (after_input_connect_success n n' inputname Hwf H) as [Hv ->].
  assert (Hrange : Forall (fun kc => Forall (fun c => 0 <= c < Z.of_nat (ncols a))
                                       (snd kc)) (output_channels n)).
  { eapply Forall_impl; [|exact Hv]. intros kc [_ Hr]. now rewrite Hcols. }
  split.
  - clear H. destruct n as [i oc [|ax] o]; unfold resolved, resolved_axis;
      simpl in *;
      (rewrite (splitter_routes_columns Sample Rate shared_slice);
       [reflexivity | intros k Hk; simpl; now rewrite keys_derived
       | exact Hrange]).
  - intros k chans Hin. apply columns_route_channels; [exact Hshape|].
    rewrite Forall_forall in Hrange. exact (Hrange _ Hin).
Qed.

End Facts.

(** *** Concrete nodes *)

Lemma ab_groups_wf : wf ab_groups.
Proof. repeat constructor; simpl; intuition discriminate. Qed.

Example conversions_plain_to_shared :
  conversions_of plain_params (shared_params 1024)
  = [("transfermode", (PStr "plaindata", PStr "sharedarray"))].
Proof. reflexivity. Qed.

Example conversions_shared_to_plain :
  conversions_of (shared_params 1024) plain_params
  = [("transfermode", (PStr "sharedarray", PStr "plaindata"));
     ("sharedarray_shape", (PShape [1024; 4], PNone))].
Proof. reflexivity. Qed.

Lemma converter_relays_unchanged_witness :
  ThreadStreamConverter_process_data shared_chunk
    (StreamConverter_initialize (converter_node plain_params (shared_params 1024)))
    3 (Some chunk_axis0) []
  = (inr tt, [EvSend "out" 3 (Some chunk_axis0)]).
Proof.
  apply (converter_relays_unchanged Z Z shared_chunk
           (converter_node plain_params (shared_params 1024)) 3
           (Some chunk_axis0) []).
  left. discriminate.
Defined.

Lemma converter_from_shared_always_raises_witness :
  ThreadStreamConverter_process_data shared_chunk
    (StreamConverter_initialize (converter_node (shared_params 1024) plain_params))
    3 (Some chunk_axis0) []
  = (inl (TypeError
            "get_array_slice() takes 3 positional arguments but 4 were given"),
     []).
Proof.
  apply (converter_from_shared_always_raises Z Z shared_chunk
           (converter_node (shared_params 1024) plain_params) 3
           (Some chunk_axis0) []).
  - reflexivity.
  - discriminate.
Defined.

Lemma splitter_fetch_failure_witness :
  ThreadSplitter_process_data overwritten
    (_initialize (snd (after_input_connect "in" (splitter4 0)))) 3 None []
  = (inl (RemoteError "DataOverwritten"), [EvGetArraySlice 3 None]).
Proof.
  exact (proj2 (splitter_fetch_failure Z Z overwritten
                  (_initialize (snd (after_input_connect "in" (splitter4 0))))
                  3 [])
           (input4 0) (RemoteError "DataOverwritten") eq_refl eq_refl).
Defined.

Lemma after_input_connect_failure_witness :
  after_input_connect "in" splitter_bad =
    (inl (AssertionError "output_channels do not match channel count 4"),
     with_outputs
       [("a", {| spec := make_spec (input_params (input4 0)) 0 [0; 1] |})]
       (resolved splitter_bad)).
Proof.
  apply (after_input_connect_failure Z splitter_bad "in" "b" [2; 4]
           [("a", [0; 1])] [("c", [0])]).
  - reflexivity.
  - repeat constructor; simpl; intuition discriminate.
  - repeat constructor; try discriminate; cbv; intros; discriminate.
  - intros [_ H]. inversion H as [|? ? _ H']; subst.
    inversion H' as [|? ? Hc _]; subst. destruct Hc as [_ Hc].
    revert Hc. cbv. intros Hc. discriminate Hc.
Defined.

Lemma after_input_connect_idempotent_witness :
  let n' := snd (after_input_connect "in" (splitter4 0)) in
  after_input_connect "again" n' = (inr tt, n').
Proof.
  exact (after_input_connect_idempotent Z (splitter4 0)
           (snd (after_input_connect "in" (splitter4 0))) "in" "again"
           ab_groups_wf eq_refl).
Defined.

Lemma same_is_resolved_once_witness :
  let n1 := snd (after_input_connect "in" (splitter4 1)) in
  let n2 := snd (after_input_connect "in" (with_input (input4 0) n1)) in
  output_timeaxis n2 = Axis 1 /\
  outputs n2 = map (derived_output (input_params (input4 0)) 1) ab_groups.
Proof.
  exact (same_is_resolved_once Z (splitter4 1)
           (snd (after_input_connect "in" (splitter4 1)))
           (snd (after_input_connect "in"
                   (with_input (input4 0)
                      (snd (after_input_connect "in" (splitter4 1))))))
           (input4 0) "in" "in" ab_groups_wf eq_refl eq_refl eq_refl).
Defined.

Lemma configured_splitter_routes_witness :
  well_shaped chunk_axis0 /\
  ThreadSplitter_process_data no_shared_memory
    (_initialize (snd (after_input_connect "in" (splitter4 0)))) 3
    (Some chunk_axis0) []
  = (inr tt,
     [] ++ map (fun kc => EvSend (fst kc) 3 (Some (columns chunk_axis0 (snd kc))))
             ab_groups).
Proof.
  assert (Hw : well_shaped chunk_axis0) by (repeat constructor).
  split; [exact Hw|].
  exact (proj1 (configured_splitter_routes Z Z no_shared_memory (splitter4 0)
                  (snd (after_input_connect "in" (splitter4 0))) "in" 3
                  chunk_axis0 [] ab_groups_wf eq_refl Hw eq_refl)).
Defined.

End ToolsMore.
